(** * Keyword-scored context selection of the FAQ agent

    A shallow embedding of [src/agent-simple-rag.js]: the tokenizer and
    stop-word filter, the relevance scorer and the selector
    ([findRelevantDocuments]), document derivation
    ([createDocumentsFromData]), and the synchronous prefix of
    [runFAQAgent] (cache check, load, derivation, retrieval and context
    assembly, lines 104-126).

    Strings.  A JavaScript string is modelled by a Rocq [string] whose
    characters are the code points U+0000..U+00FF.  On that range
    [String.prototype.toLowerCase] is a character-wise, length-preserving
    map and the regular-expression class [\s] is the seven characters
    listed in [isWhiteSpace]; both are written out below.  *)

From Stdlib Require Import String Ascii List Arith Bool Lia ZArith.
From Stdlib Require Import Permutation Sorted.
Import ListNotations.

Open Scope string_scope.
Open Scope list_scope.
Open Scope nat_scope.

(** String concatenation, the [+] of JavaScript strings and the
    juxtaposition inside template literals. *)
Infix "+++" := String.append (right associativity, at level 60).

(* ================================================================== *)
(** ** JavaScript string primitives *)
(* ================================================================== *)

Module JsString.

(** [toLowerCase] on one code point of U+0000..U+00FF: [A-Z] and the
    Latin-1 capitals U+00C0..U+00DE (the multiplication sign U+00D7
    excepted) move up by 32; every other code point is unchanged. *)
Definition lowerChar (c : ascii) : ascii :=
  let n := nat_of_ascii c in
  if ((65 <=? n) && (n <=? 90)) ||
     ((192 <=? n) && (n <=? 222) && negb (n =? 215))
  then ascii_of_nat (n + 32)
  else c.

(** [s.toLowerCase()] *)
Fixpoint toLowerCase (s : string) : string :=
  match s with
  | EmptyString => EmptyString
  | String c s' => String (lowerChar c) (toLowerCase s')
  end.

(** The class [\s] restricted to U+0000..U+00FF: TAB, LF, VT, FF, CR,
    SPACE and NO-BREAK SPACE. *)
Definition isWhiteSpace (c : ascii) : bool :=
  let n := nat_of_ascii c in
  ((9 <=? n) && (n <=? 13)) || (n =? 32) || (n =? 160).

(** [s.split(/\s+/)]: the pieces of [s] between its maximal runs of
    white space, in order.  A run at the very start or the very end of
    [s] leaves an empty piece there, and the empty string splits into
    one empty piece, as the regular-expression split of the language
    specifies.
    [cur] is the piece being read; [inSep] tells that the previous
    character belonged to a separator run. *)
Fixpoint splitFrom (inSep : bool) (cur : string) (s : string) : list string :=
  match s with
  | EmptyString => [cur]
  | String c s' =>
      if isWhiteSpace c then
        if inSep then splitFrom true EmptyString s'
        else cur :: splitFrom true EmptyString s'
      else splitFrom false (cur +++ String c EmptyString) s'
  end.

Definition split (s : string) : list string := splitFrom false EmptyString s.

(** [s.includes(t)]: [t] occurs in [s] at some position. *)
Fixpoint includes (s t : string) : bool :=
  prefix t s ||
  match s with
  | EmptyString => false
  | String _ s' => includes s' t
  end.

(** [l.join(sep)] on an array of strings. *)
Fixpoint join (sep : string) (l : list string) : string :=
  match l with
  | [] => EmptyString
  | [x] => x
  | x :: rest => x +++ sep +++ join sep rest
  end.

(** [l.includes(w)] on an array of strings. *)
Definition arrayIncludes (l : list string) (w : string) : bool :=
  existsb (String.eqb w) l.

(** Line feed, the line break inside the template literals. *)
Definition LF : string := String (ascii_of_nat 10) EmptyString.

End JsString.
Import JsString.

(* ================================================================== *)
(** ** Tokenizer and stop-word filter (lines 22-26) *)
(* ================================================================== *)

Definition stopWords : list string :=
  ["the"; "a"; "an"; "is"; "are"; "what"; "who"; "where"; "when"; "why";
   "how"; "does"; "do"; "can"; "could"].

(** The constant [questionWords] of [findRelevantDocuments]. *)
Definition questionWords (question : string) : list string :=
  let questionLower := toLowerCase question in
  filter (fun word => negb (arrayIncludes stopWords word))
    (filter (fun word => 2 <? String.length word)
       (split questionLower)).

(** The tokenizer as the specification words it: the tokens of a string
    are its maximal runs of characters that are not white space (never
    an empty token).  [tokensFrom] reads the string from its end and
    returns the token that starts at the current position, if any, with
    the tokens after it. *)
Definition consToken (w : string) (ws : list string) : list string :=
  match w with EmptyString => ws | _ => w :: ws end.

Fixpoint tokensFrom (s : string) : string * list string :=
  match s with
  | EmptyString => (EmptyString, [])
  | String c s' =>
      let (w, ws) := tokensFrom s' in
      if isWhiteSpace c
      then (EmptyString, consToken w ws)
      else (String c w, ws)
  end.

Definition tokens (s : string) : list string :=
  let (w, ws) := tokensFrom s in consToken w ws.

Definition nonEmpty (s : string) : bool :=
  match s with EmptyString => false | _ => true end.

(** A string free of white space. *)
Definition noWhiteSpace (s : string) : Prop :=
  forall pre c post, s = pre +++ String c post -> isWhiteSpace c = false.

Definition isStopWord (w : string) : bool :=
  if in_dec string_dec w stopWords then true else false.

(** [extractTerms] as the specification states it. *)
Definition extractTerms_spec (question : string) : list string :=
  filter (fun t => negb (isStopWord t))
    (filter (fun t => negb (String.length t <=? 2))
       (tokens (toLowerCase question))).

(* ================================================================== *)
(** ** The knowledge base: the shape of [faq.json] that the code reads *)
(* ================================================================== *)

Module Employee.
Record t := { name : string; role : string; area : string }.
End Employee.

Module Mission.
Record t := { title : string; text : string; items : list string }.
End Mission.

Module Contact.
Record t := { email : string; phone : string }.
End Contact.

Module Hq.
Record t := { address : string }.
End Hq.

(** [data.en]; the property ["co-founders"] is written [co_founders]. *)
Record En := {
  companyName : string;
  founder : string;
  co_founders : list string;
  missionStatement : string;
  tagline : string;
  story : string;
  employees : list Employee.t;
  mission : list Mission.t;
  contact : Contact.t;
  hq : Hq.t
}.

Record FaqData := { en : En }.

(* ================================================================== *)
(** ** Documents *)
(* ================================================================== *)

(** A document object: [content] and [type] are always written by
    [createDocumentsFromData]; [name] and [category] are present on
    employee and mission documents only ([None] is an absent property). *)
Record Document := {
  content : string;
  type : string;
  name : option string;
  category : option string
}.

(** The object [{ ...doc, score }]: a new object with the properties of
    [doc] and a [score]. *)
Module ScoredDoc.
Record t := {
  content : string;
  type : string;
  name : option string;
  category : option string;
  score : nat
}.
End ScoredDoc.

(** [{ ...doc, score }] *)
Definition spreadWithScore (doc : Document) (score : nat) : ScoredDoc.t :=
  {| ScoredDoc.content := content doc;
     ScoredDoc.type := type doc;
     ScoredDoc.name := name doc;
     ScoredDoc.category := category doc;
     ScoredDoc.score := score |}.

(* ================================================================== *)
(** ** Arrays *)
(* ================================================================== *)

Module JsArray.

(** [arr.push(x)] *)
Definition push {A : Type} (arr : list A) (x : A) : list A := arr ++ [x].

(** [arr.forEach(body)] where [body] updates a variable of the
    enclosing function; the variable is threaded through as [st]. *)
Definition forEach {A St : Type} (arr : list A) (body : St -> A -> St)
  (st : St) : St :=
  fold_left body arr st.

(** [arr.sort(cmp)].  [Array.prototype.sort] is stable, and [cmp a b <= 0]
    keeps [a] before [b]; with the consistent comparators used here the
    sorted array is determined by that, whatever algorithm the engine
    runs.  It is written as a stable insertion sort. *)
Fixpoint insertSorted {A : Type} (cmp : A -> A -> Z) (x : A) (l : list A)
  : list A :=
  match l with
  | [] => [x]
  | y :: l' =>
      if (cmp x y <=? 0)%Z then x :: y :: l'
      else y :: insertSorted cmp x l'
  end.

Fixpoint sort {A : Type} (cmp : A -> A -> Z) (l : list A) : list A :=
  match l with
  | [] => []
  | x :: l' => insertSorted cmp x (sort cmp l')
  end.

(** [arr.slice(0, n)] *)
Definition slice0 {A : Type} (n : nat) (arr : list A) : list A := firstn n arr.

End JsArray.
Import JsArray.

(* ================================================================== *)
(** ** Relevance scorer and selector (lines 29-46) *)
(* ================================================================== *)

(** [t] occurs in [c] when letter case is ignored: some substring of [c]
    and [t] have the same lower-case form. *)
Definition CISubstring (t c : string) : Prop :=
  exists pre s post, c = pre +++ s +++ post /\ toLowerCase s = toLowerCase t.

(** Case-insensitive containment as a test: both sides are lower-cased. *)
Definition ciIncludes (c t : string) : bool :=
  includes (toLowerCase c) (toLowerCase t).

(** The body of the [documents.map] callback up to [return]: the score
    of one document, one point for each entry of [questionWords] that
    the lower-cased content includes. *)
Definition scoreOf (questionWords : list string) (doc : Document) : nat :=
  let contentLower := toLowerCase (content doc) in
  forEach questionWords
    (fun score word => if includes contentLower word then score + 1 else score)
    0.

(** The comparator [(a, b) => b.score - a.score]. *)
Definition byScoreDesc (a b : ScoredDoc.t) : Z :=
  (Z.of_nat (ScoredDoc.score b) - Z.of_nat (ScoredDoc.score a))%Z.

(** Lines 29-46 of [findRelevantDocuments], for given [questionWords]. *)
Definition selectWith (questionWords : list string)
  (documents : list Document) : list ScoredDoc.t :=
  let scoredDocs :=
    map (fun doc => spreadWithScore doc (scoreOf questionWords doc)) documents in
  slice0 5
    (sort byScoreDesc
       (filter (fun doc => 0 <? ScoredDoc.score doc) scoredDocs)).

Definition findRelevantDocuments (question : string)
  (documents : list Document) : list ScoredDoc.t :=
  selectWith (questionWords question) documents.

(* ================================================================== *)
(** ** Document derivation (lines 52-98) *)
(* ================================================================== *)

Definition companyDocument (data : FaqData) : Document :=
  {| content :=
       "Company Name: " +++ companyName (en data) +++ LF +++
       "Founder: " +++ founder (en data) +++ LF +++
       "Co-founders: " +++ join ", " (co_founders (en data)) +++ LF +++
       "Mission Statement: " +++ missionStatement (en data) +++ LF +++
       "Tagline: " +++ tagline (en data) +++ LF +++
       "Story: " +++ story (en data);
     type := "company_info";
     name := None;
     category := None |}.

Definition employeeDocument (emp : Employee.t) : Document :=
  {| content :=
       "Employee: " +++ Employee.name emp +++ LF +++
       "Role: " +++ Employee.role emp +++ LF +++
       "Area: " +++ Employee.area emp;
     type := "employee";
     name := Some (Employee.name emp);
     category := None |}.

Definition missionDocument (mission : Mission.t) : Document :=
  {| content :=
       Mission.title mission +++ LF +++
       Mission.text mission +++ LF +++
       "Technologies: " +++ join ", " (Mission.items mission);
     type := "mission";
     name := None;
     category := Some (Mission.title mission) |}.

Definition contactDocument (data : FaqData) : Document :=
  {| content :=
       "Contact Information:" +++ LF +++
       "Email: " +++ Contact.email (contact (en data)) +++ LF +++
       "Phone: " +++ Contact.phone (contact (en data)) +++ LF +++
       "Address: " +++ Hq.address (hq (en data));
     type := "contact";
     name := None;
     category := None |}.

Definition createDocumentsFromData (data : FaqData) : list Document :=
  let documents := [] in
  let documents := push documents (companyDocument data) in
  let documents :=
    forEach (employees (en data))
      (fun documents emp => push documents (employeeDocument emp))
      documents in
  let documents :=
    forEach (mission (en data))
      (fun documents mission => push documents (missionDocument mission))
      documents in
  let documents := push documents (contactDocument data) in
  documents.

(** The type tags that [createDocumentsFromData] writes. *)
Definition categoryTags : list string :=
  ["company_info"; "employee"; "mission"; "contact"].

(* ================================================================== *)
(** ** Context assembly (lines 118-126) *)
(* ================================================================== *)

(** The callback of [relevantDocs.map]; the empty string is the only
    falsy value a [type] can take. *)
Definition formatDocument (doc : ScoredDoc.t) : string :=
  let metadata :=
    match ScoredDoc.type doc with
    | EmptyString => ""
    | ty => "[" +++ ty +++ "]"
    end in
  metadata +++ LF +++ ScoredDoc.content doc.

Definition delimiter : string := LF +++ LF +++ "---" +++ LF +++ LF.

Definition fallbackContext (data : FaqData) : string :=
  "Company: " +++ companyName (en data) +++ LF +++ missionStatement (en data).

(** The constant [context] of [runFAQAgent]. *)
Definition context (data : FaqData) (relevantDocs : list ScoredDoc.t)
  : string :=
  if 0 <? length relevantDocs
  then join delimiter (map formatDocument relevantDocs)
  else fallbackContext data.

(** Lines 112-126 for loaded data: derivation, retrieval, assembly. *)
Definition buildContext (data : FaqData) (question : string) : string :=
  let documents := createDocumentsFromData data in
  let relevantDocs := findRelevantDocuments question documents in
  context data relevantDocs.

(* ================================================================== *)
(** ** The module-level cache and the synchronous part of [runFAQAgent]
       (lines 104-126) *)
(* ================================================================== *)

(** Module state.  [faqDataCache] is the variable of line 16 ([None] is
    [null]).  [loaderCalls] is a ghost counter of how many times
    [JSON.parse(fs.readFileSync("faq.json", "utf8"))] was evaluated. *)
Record Process := {
  faqDataCache : option FaqData;
  loaderCalls : nat
}.

Definition initialProcess : Process :=
  {| faqDataCache := None; loaderCalls := 0 |}.

(** What one call computes before it awaits the language model, or the
    exception thrown by the read or the parse. *)
Inductive Outcome :=
| Threw
| Built (documents : list Document) (relevantDocs : list ScoredDoc.t)
        (context : string).

Definition built (data : FaqData) (question : string) : Outcome :=
  let documents := createDocumentsFromData data in
  let relevantDocs := findRelevantDocuments question documents in
  Built documents relevantDocs (context data relevantDocs).

(** One call.  [file] is what the loader yields if it is evaluated
    during this call: [Some data] for a file that parses to the
    knowledge-base shape, [None] when the read or the parse throws.
    Lines 107-126 contain no [await], so they run without interleaving
    with another call. *)
Definition runFAQAgent (file : option FaqData) (question : string)
  (st : Process) : Process * Outcome :=
  match faqDataCache st with
  | Some data => (st, built data question)
  | None =>
      match file with
      | Some data =>
          ({| faqDataCache := Some data; loaderCalls := S (loaderCalls st) |},
           built data question)
      | None =>
          ({| faqDataCache := None; loaderCalls := S (loaderCalls st) |},
           Threw)
      end
  end.

(** A sequence of calls in one process, each with the file content it
    would see. *)
Fixpoint runCalls (calls : list (option FaqData * string)) (st : Process)
  : Process * list Outcome :=
  match calls with
  | [] => (st, [])
  | (file, question) :: rest =>
      let (st1, out) := runFAQAgent file question st in
      let (st2, outs) := runCalls rest st1 in
      (st2, out :: outs)
  end.

Definition outcomeDocuments (o : Outcome) : option (list Document) :=
  match o with
  | Threw => None
  | Built documents _ _ => Some documents
  end.

(* ================================================================== *)
(** ** [findRelevantDocuments] over an object store *)
(* ================================================================== *)

(** Objects live in a store and arrays hold references to them, so that
    what the function does to the caller's document objects is visible:
    [documents.map] reads each document and allocates the object
    [{ ...doc, score }]; [filter], [sort] and [slice] build arrays of
    the same references. *)
Module Store.

Inductive object :=
| Doc (d : Document)
| Scored (s : ScoredDoc.t).

Definition ref := nat.
Definition store := list object.

(** The own properties that the spread copies, [score] apart. *)
Definition fields (o : object) : Document :=
  match o with
  | Doc d => d
  | Scored s =>
      {| content := ScoredDoc.content s;
         type := ScoredDoc.type s;
         name := ScoredDoc.name s;
         category := ScoredDoc.category s |}
  end.

Definition alloc (o : object) (h : store) : ref * store :=
  (length h, h ++ [o]).

(** [documents.map(doc => ...)]: [None] only for a reference that is
    not in the store. *)
Fixpoint mapScore (questionWords : list string) (documents : list ref)
  (h : store) : option (list ref * store) :=
  match documents with
  | [] => Some ([], h)
  | r :: rest =>
      match nth_error h r with
      | None => None
      | Some o =>
          let doc := fields o in
          let (r', h1) :=
            alloc (Scored (spreadWithScore doc (scoreOf questionWords doc))) h in
          match mapScore questionWords rest h1 with
          | None => None
          | Some (rs, h2) => Some (r' :: rs, h2)
          end
      end
  end.

(** [doc.score] read through a reference; [undefined] reads as 0 in
    [doc.score > 0] and is never met on the objects made by [mapScore]. *)
Definition scoreAt (h : store) (r : ref) : nat :=
  match nth_error h r with
  | Some (Scored s) => ScoredDoc.score s
  | _ => 0
  end.





Definition findRelevantDocuments (question : string) (documents : list ref)
  (h : store) : option (list ref * store) :=
  match mapScore (questionWords question) documents h with
  | None => None
  | Some (scoredDocs, h') =>
      Some (slice0 5
              (sort (fun a b =>
                       (Z.of_nat (scoreAt h' b) - Z.of_nat (scoreAt h' a))%Z)
                 (filter (fun doc => 0 <? scoreAt h' doc) scoredDocs)),
            h')
  end.

End Store.

(* ================================================================== *)
(** ** A sample knowledge base *)
(* ================================================================== *)

(** The knowledge base of the specification's example scenarios. *)
Definition acme : FaqData :=
  {| en :=
       {| companyName := "Acme";
          founder := "Ana";
          co_founders := ["Leo"];
          missionStatement := "We build APIs";
          tagline := "APIs for all";
          story := "Started in a garage";
          employees :=
            [ {| Employee.name := "Ana"; Employee.role := "Engineer";
                 Employee.area := "Backend" |};
              {| Employee.name := "Leo"; Employee.role := "Designer";
                 Employee.area := "Frontend" |} ];
          mission :=
            [ {| Mission.title := "Backend"; Mission.text := "We build APIs";
                 Mission.items := ["Node"; "Postgres"] |} ];
          contact := {| Contact.email := "hi@acme.io"; Contact.phone := "555" |};
          hq := {| Hq.address := "1 Main St" |} |} |}.

(* ================================================================== *)
(** ** More string primitives *)
(* ================================================================== *)

Module JsText.

(** [s.trimStart()], [s.trimEnd()] and [s.trim()]: the white space that
    [trim] strips is the class [\s]. *)
Fixpoint trimStart (s : string) : string :=
  match s with
  | EmptyString => EmptyString
  | String c s' => if isWhiteSpace c then trimStart s' else s
  end.

Fixpoint trimEnd (s : string) : string :=
  match s with
  | EmptyString => EmptyString
  | String c s' =>
      match trimEnd s' with
      | EmptyString => if isWhiteSpace c then EmptyString else String c EmptyString
      | t => String c t
      end
  end.

Definition trim (s : string) : string := trimEnd (trimStart s).

(** [text.replace(/c/g, rep)] for a pattern that is one literal
    character and a replacement text without [$]. *)
Fixpoint replaceAll (c : ascii) (rep : string) (text : string) : string :=
  match text with
  | EmptyString => EmptyString
  | String x rest =>
      if Ascii.eqb x c then rep +++ replaceAll c rep rest
      else String x (replaceAll c rep rest)
  end.

(** [s.endsWith(suffix)] *)
Fixpoint endsWith (s suffix : string) : bool :=
  String.eqb s suffix ||
  match s with
  | EmptyString => false
  | String _ s' => endsWith s' suffix
  end.

(** The number of occurrences of a character. *)
Fixpoint countChar (c : ascii) (s : string) : nat :=
  match s with
  | EmptyString => 0
  | String x rest => (if Ascii.eqb x c then 1 else 0) + countChar c rest
  end.

(** Every character is white space. *)
Fixpoint allWhiteSpace (s : string) : bool :=
  match s with
  | EmptyString => true
  | String c s' => isWhiteSpace c && allWhiteSpace s'
  end.

(** The first and the last character, if any. *)
Definition firstChar (s : string) : option ascii :=
  match s with EmptyString => None | String c _ => Some c end.

Fixpoint lastChar (s : string) : option ascii :=
  match s with
  | EmptyString => None
  | String c EmptyString => Some c
  | String _ s' => lastChar s'
  end.

(** The double quote, as a character and as a string. *)
Definition DQ : ascii := ascii_of_nat 34.
Definition dq : string := String DQ EmptyString.

End JsText.
Import JsText.

(* ================================================================== *)
(** ** The web server ([src/server.js]) *)
(* ================================================================== *)

Module Server.

(** [escapeHtml] (lines 126-136) on a string. *)
Definition escapeHtml (text : string) : string :=
  replaceAll "'" "&#039;"
    (replaceAll DQ "&quot;"
       (replaceAll ">" "&gt;"
          (replaceAll "<" "&lt;"
             (replaceAll "&" "&amp;" text)))).

(** One character escaped on its own, and a text escaped character by
    character in a single pass. *)
Definition escapeChar (c : ascii) : string :=
  if Ascii.eqb c "&" then "&amp;"
  else if Ascii.eqb c "<" then "&lt;"
  else if Ascii.eqb c ">" then "&gt;"
  else if Ascii.eqb c DQ then "&quot;"
  else if Ascii.eqb c "'" then "&#039;"
  else String c EmptyString.

Fixpoint escapeOnePass (text : string) : string :=
  match text with
  | EmptyString => EmptyString
  | String c rest => escapeChar c +++ escapeOnePass rest
  end.

(** The four characters that open or close markup or an attribute. *)
Definition isMarkup (c : ascii) : bool :=
  Ascii.eqb c "<" || Ascii.eqb c ">" || Ascii.eqb c DQ || Ascii.eqb c "'".

(** What a handler reads from [req.body.question] or [req.query.q]: a
    string, [undefined], [null], or a value of another type (a number,
    a boolean, an array, an object). *)
Inductive JsValue :=
| VUndefined
| VNull
| VString (s : string)
| VOther.

(** How the awaited [runFAQAgent(question)] settles: with an answer, or
    rejected with an error whose [message] is given (the empty string
    also stands for a missing message). *)
Inductive AgentResult :=
| Resolved (answer : string)
| RejectedWith (message : string).

#[local] Unset Elimination Schemes.
Inductive Json :=
| JString (s : string)
| JObject (fields : list (string * Json)).
#[local] Set Elimination Schemes.

(** A response: the status, the body sent, and the questions with which
    the handler called the agent. *)
Record Response (B : Type) := {
  status : nat;
  body : B;
  agentCalls : list string
}.
Arguments status {B} _.
Arguments body {B} _.
Arguments agentCalls {B} _.

(** [message || fallback] *)
Definition orElse (message fallback : string) : string :=
  match message with EmptyString => fallback | _ => message end.

Definition internalError (message : string) : Json :=
  JObject
    [("error", JString "Internal server error");
     ("message",
      JString (orElse message
                 "An error occurred while processing your question"))].

(** The two JSON handlers from the guard on the question to the
    response (lines 35-49 and 64-78): they differ in the body of the
    400 response only. *)
Definition answerJson (invalidRequest : Json)
  (runFAQAgent : string -> AgentResult) (question : JsValue)
  : Response Json :=
  match question with
  | VString q =>
      if negb (nonEmpty q) || (String.length (trim q) =? 0) then
        {| status := 400; body := invalidRequest; agentCalls := [] |}
      else
        match runFAQAgent (trim q) with
        | Resolved answer =>
            {| status := 200;
               body := JObject [("question", JString (trim q));
                                ("answer", JString answer)];
               agentCalls := [trim q] |}
        | RejectedWith message =>
            {| status := 500; body := internalError message;
               agentCalls := [trim q] |}
        end
  | _ => {| status := 400; body := invalidRequest; agentCalls := [] |}
  end.

Definition postInvalidRequest : Json :=
  JObject
    [("error", JString "Invalid request");
     ("message",
      JString "Please provide a valid question in the request body");
     ("example",
      JObject [("question", JString "What is the company's mission?")])].

Definition getInvalidRequest : Json :=
  JObject
    [("error", JString "Invalid request");
     ("message",
      JString "Please provide a question using the 'q' query parameter");
     ("example",
      JString "/api/ask?q=What is the company's mission?")].

(** The handler of [POST /api/ask] (lines 31-57).  [reqBody] is
    [req.body]: [None] when no body was parsed and [req.body] is
    [undefined], [Some v] for a parsed body whose property [question]
    reads as [v].  On [undefined] the destructuring of line 33 throws
    inside the [try]; [cannotRead] is the message of that [TypeError]. *)
Definition postApiAsk (cannotRead : string)
  (runFAQAgent : string -> AgentResult) (reqBody : option JsValue)
  : Response Json :=
  match reqBody with
  | None =>
      {| status := 500; body := internalError cannotRead; agentCalls := [] |}
  | Some question => answerJson postInvalidRequest runFAQAgent question
  end.

(** The handler of [GET /api/ask] (lines 60-86).  [q] is [req.query.q];
    [req.query] is always an object. *)
Definition getApiAsk (runFAQAgent : string -> AgentResult) (q : JsValue)
  : Response Json :=
  answerJson getInvalidRequest runFAQAgent q.

(** The response [r] comes from one agent call with the question [s]
    trimmed: 200 with the trimmed question and the answer when the call
    resolves, 500 with the error when it is rejected. *)
Definition answersTrimmed (runFAQAgent : string -> AgentResult) (s : string)
  (r : Response Json) : Prop :=
  agentCalls r = [trim s] /\
  match runFAQAgent (trim s) with
  | Resolved answer =>
      status r = 200 /\
      body r = JObject [("question", JString (trim s));
                        ("answer", JString answer)]
  | RejectedWith message =>
      status r = 500 /\ body r = internalError message
  end.

(** The three HTML fragments of [POST /ask] (lines 94-98, 105-114,
    117-121). *)
Definition enterQuestion : string :=
  LF +++ "        <div class=" +++ dq +++ "error-message" +++ dq +++
  " role=" +++ dq +++ "alert" +++ dq +++ ">" +++ LF +++
  "          <strong>Error:</strong> Please enter a question." +++ LF +++
  "        </div>" +++ LF +++
  "      ".

Definition messagePair (question answer : string) : string :=
  LF +++ "      <div class=" +++ dq +++ "message-pair" +++ dq +++ ">" +++ LF +++
  "        <div class=" +++ dq +++ "user-question" +++ dq +++ ">" +++ LF +++
  "          <strong>You asked:</strong> " +++ escapeHtml question +++ LF +++
  "        </div>" +++ LF +++
  "        <div class=" +++ dq +++ "bot-answer" +++ dq +++ ">" +++ LF +++
  "          <strong>Answer:</strong> " +++ escapeHtml answer +++ LF +++
  "        </div>" +++ LF +++
  "      </div>" +++ LF +++
  "    ".

Definition errorFragment (message : string) : string :=
  LF +++ "      <div class=" +++ dq +++ "error-message" +++ dq +++
  " role=" +++ dq +++ "alert" +++ dq +++ ">" +++ LF +++
  "        <strong>Error:</strong> " +++
  escapeHtml
    (orElse message "An error occurred while processing your question") +++
  LF +++
  "      </div>" +++ LF +++
  "    ".

(** The handler of [POST /ask] (lines 89-123).  [reqBody] is
    [req.body] as for [postApiAsk].  [cannotRead] is the message of the
    [TypeError] that reading [req.body.question] raises when [req.body]
    is [undefined]; [notAFunction] is the message of the [TypeError]
    that [req.body.question?.trim()] raises on a value that is neither
    nullish nor a string.  Both are thrown inside the [try]. *)
Definition postAsk (cannotRead notAFunction : string)
  (runFAQAgent : string -> AgentResult) (reqBody : option JsValue)
  : Response string :=
  match reqBody with
  | None =>
      {| status := 500; body := errorFragment cannotRead; agentCalls := [] |}
  | Some VOther =>
      {| status := 500; body := errorFragment notAFunction; agentCalls := [] |}
  | Some VUndefined | Some VNull =>
      {| status := 400; body := enterQuestion; agentCalls := [] |}
  | Some (VString s) =>
      let question := trim s in
      if negb (nonEmpty question) || (String.length question =? 0) then
        {| status := 400; body := enterQuestion; agentCalls := [] |}
      else
        match runFAQAgent question with
        | Resolved answer =>
            {| status := 200; body := messagePair question answer;
               agentCalls := [question] |}
        | RejectedWith message =>
            {| status := 500; body := errorFragment message;
               agentCalls := [question] |}
        end
  end.

End Server.

(* ================================================================== *)
(** ** Command-line mode (lines 165-182 of [src/agent-simple-rag.js]) *)
(* ================================================================== *)

Inductive CliAction :=
| NotRunDirectly
| UsageExit1
| Ask (question : string).

Definition cli (argv : list string) : CliAction :=
  match nth_error argv 1 with
  | Some script =>
      if nonEmpty script && endsWith script "agent-simple-rag.js" then
        let question := join " " (skipn 2 argv) in
        if nonEmpty question then Ask question else UsageExit1
      else NotRunDirectly
  | None => NotRunDirectly
  end.

(* ================================================================== *)
(** ** The vector-store agent ([agent-with-rag.js]): documents and
       context (lines 37-85 and 110-115) *)
(* ================================================================== *)

Module VectorRag.

Record Metadata := {
  type : string;
  name : option string;
  category : option string
}.

(** [new Document({ pageContent, metadata })] *)
Record LcDocument := {
  pageContent : string;
  metadata : Metadata
}.

(** The array [documents] that [initializeVectorStore] hands to the
    vector store. *)
Definition documentsOf (faqData : FaqData) : list LcDocument :=
  let documents := [] in
  let documents :=
    push documents
      {| pageContent :=
           "Company Name: " +++ companyName (en faqData) +++ LF +++
           "Founder: " +++ founder (en faqData) +++ LF +++
           "Co-founders: " +++ join ", " (co_founders (en faqData)) +++ LF +++
           "Mission Statement: " +++ missionStatement (en faqData) +++ LF +++
           "Tagline: " +++ tagline (en faqData) +++ LF +++
           "Story: " +++ story (en faqData);
         metadata := {| type := "company_info"; name := None;
                        category := None |} |} in
  let documents :=
    forEach (employees (en faqData))
      (fun documents emp =>
         push documents
           {| pageContent :=
                "Employee: " +++ Employee.name emp +++ LF +++
                "Role: " +++ Employee.role emp +++ LF +++
                "Area: " +++ Employee.area emp;
              metadata := {| type := "employee";
                             name := Some (Employee.name emp);
                             category := None |} |})
      documents in
  let documents :=
    forEach (mission (en faqData))
      (fun documents mission =>
         push documents
           {| pageContent :=
                Mission.title mission +++ LF +++
                Mission.text mission +++ LF +++
                "Technologies: " +++ join ", " (Mission.items mission);
              metadata := {| type := "mission"; name := None;
                             category := Some (Mission.title mission) |} |})
      documents in
  let documents :=
    push documents
      {| pageContent :=
           "Contact Information:" +++ LF +++
           "Email: " +++ Contact.email (contact (en faqData)) +++ LF +++
           "Phone: " +++ Contact.phone (contact (en faqData)) +++ LF +++
           "Address: " +++ Hq.address (hq (en faqData));
         metadata := {| type := "contact"; name := None;
                        category := None |} |} in
  documents.

(** The constant [context] of this agent's [runFAQAgent]: no fallback. *)
Definition context (relevantDocs : list LcDocument) : string :=
  join delimiter
    (map (fun doc =>
            let metadata :=
              match type (metadata doc) with
              | EmptyString => ""
              | ty => "[" +++ ty +++ "]"
              end in
            metadata +++ LF +++ pageContent doc)
       relevantDocs).

End VectorRag.

(** A document of the vector-store agent as an object of the keyword
    agent: the page content and the three metadata entries. *)
Definition asDocument (doc : VectorRag.LcDocument) : Document :=
  {| content := VectorRag.pageContent doc;
     type := VectorRag.type (VectorRag.metadata doc);
     name := VectorRag.name (VectorRag.metadata doc);
     category := VectorRag.category (VectorRag.metadata doc) |}.

(* ================================================================== *)
(** ** The vector-store agent: initialisation across calls
       ([initializeVectorStore], lines 25-94) *)
(* ================================================================== *)

(** [initializeVectorStore] is an [async] function with one [await]:
    a call runs from its start to [MemoryVectorStore.fromDocuments]
    without interleaving, is suspended there, and assigns
    [vectorStoreCache] when the awaited store arrives.  A store is
    represented by the documents it was built from. *)
Module VectorCache.

Record State := {
  vectorStoreCache : option (list VectorRag.LcDocument);
  faqDataCache : option FaqData;
  loaderCalls : nat;
  pending : list (list VectorRag.LcDocument)
}.

Definition initial : State :=
  {| vectorStoreCache := None; faqDataCache := None; loaderCalls := 0;
     pending := [] |}.

(** [Begin file]: a call enters the function; [file] is what the read
    and parse yield if they run ([None]: they throw).
    [Complete i]: the [i]-th suspended call receives its store. *)
Inductive Event :=
| Begin (file : option FaqData)
| Complete (i : nat).

Fixpoint removeAt {A : Type} (i : nat) (l : list A) : list A :=
  match l, i with
  | [], _ => []
  | _ :: rest, 0 => rest
  | x :: rest, S j => x :: removeAt j rest
  end.

Definition step (st : State) (e : Event) : State :=
  match e with
  | Begin file =>
      match vectorStoreCache st with
      | Some _ => st
      | None =>
          match file with
          | None =>
              {| vectorStoreCache := None;
                 faqDataCache := faqDataCache st;
                 loaderCalls := S (loaderCalls st);
                 pending := pending st |}
          | Some faqData =>
              {| vectorStoreCache := None;
                 faqDataCache := Some faqData;
                 loaderCalls := S (loaderCalls st);
                 pending := pending st ++ [VectorRag.documentsOf faqData] |}
          end
      end
  | Complete i =>
      match nth_error (pending st) i with
      | None => st
      | Some documents =>
          {| vectorStoreCache := Some documents;
             faqDataCache := faqDataCache st;
             loaderCalls := loaderCalls st;
             pending := removeAt i (pending st) |}
      end
  end.

Definition run (events : list Event) (st : State) : State :=
  fold_left step events st.

End VectorCache.

(* ================================================================== *)
(** * Properties *)
(* ================================================================== *)

(** ** The functions on sample inputs *)

Example split_keeps_edge_pieces : split " a  b " = [""; "a"; "b"; ""].
Proof. reflexivity. Qed.

Example split_of_empty : split "" = [""].
Proof. reflexivity. Qed.

Example toLowerCase_latin1 :
  toLowerCase ("aZ" +++ String (ascii_of_nat 192) (String (ascii_of_nat 215) ""))
  = "az" +++ String (ascii_of_nat 224) (String (ascii_of_nat 215) "").
Proof. reflexivity. Qed.

Example questionWords_keep_punctuation :
  questionWords "Who works at this company?" = ["works"; "this"; "company?"].
Proof. reflexivity. Qed.

Example questionWords_ana : questionWords "What does Ana do?" = ["ana"; "do?"].
Proof. reflexivity. Qed.

(** Two documents of score 1 come back in derivation order. *)
Example select_ana :
  map (fun s => (ScoredDoc.type s, ScoredDoc.name s, ScoredDoc.score s))
    (findRelevantDocuments "What does Ana do?" (createDocumentsFromData acme))
  = [("company_info", None, 1); ("employee", Some "Ana", 1)].
Proof. reflexivity. Qed.

Example select_ranked :
  map (fun s => (ScoredDoc.type s, ScoredDoc.score s))
    (findRelevantDocuments "backend engineer node api"
       (createDocumentsFromData acme))
  = [("mission", 3); ("employee", 2); ("company_info", 1)].
Proof. reflexivity. Qed.

Example context_of_two :
  buildContext acme "engineer backend" =
  "[employee]" +++ LF +++ "Employee: Ana" +++ LF +++ "Role: Engineer" +++ LF +++
  "Area: Backend" +++ LF +++ LF +++ "---" +++ LF +++ LF +++
  "[mission]" +++ LF +++ "Backend" +++ LF +++ "We build APIs" +++ LF +++
  "Technologies: Node, Postgres".
Proof. reflexivity. Qed.

(** ** Strings *)

Section StringFacts.

Lemma append_empty_r (s : string) : s +++ "" = s.
Proof. induction s as [|c s IH]; simpl; [reflexivity | now rewrite IH]. Qed.

Lemma append_assoc (a b c : string) : (a +++ b) +++ c = a +++ b +++ c.
Proof. induction a as [|x a IH]; simpl; [reflexivity | now rewrite IH]. Qed.

Lemma append_eq_empty (a b : string) : a +++ b = "" -> a = "" /\ b = "".
Proof. destruct a; simpl; [auto | discriminate]. Qed.

Lemma append_nonempty_r (a b : string) : b <> "" -> a +++ b <> "".
Proof. intros Hb H. apply append_eq_empty in H. tauto. Qed.

Lemma prefix_iff (t s : string) :
  prefix t s = true <-> exists post, s = t +++ post.
Proof.
  revert s. induction t as [|c t IH]; intros s.
  - split; [intros _; now exists s | now destruct s].
  - destruct s as [|d s]; simpl.
    + split; [discriminate | intros [post H]; discriminate].
    + destruct (ascii_dec c d) as [->|Hne].
      * rewrite IH. split; intros [post H]; exists post.
        -- now rewrite H.
        -- now inversion H.
      * split; [discriminate | intros [post H]; congruence].
Qed.

(** [includes] finds an occurrence exactly when there is one. *)
Lemma includes_iff (s t : string) :
  includes s t = true <-> exists pre post, s = pre +++ t +++ post.
Proof.
  induction s as [|c s IH].
  - cbn [includes]. rewrite orb_false_r, prefix_iff. split.
    + intros [post H]. now exists "", post.
    + intros [pre [post H]]. symmetry in H.
      apply append_eq_empty in H as [-> H]. simpl. now exists post.
  - cbn [includes]. rewrite orb_true_iff, prefix_iff, IH. split.
    + intros [[post H] | [pre [post H]]].
      * now exists "", post.
      * exists (String c pre), post. simpl. now rewrite H.
    + intros [[|d pre] [post H]]; simpl in H.
      * left. now exists post.
      * right. inversion H. now exists pre, post.
Qed.

Lemma lowerChar_idem (c : ascii) : lowerChar (lowerChar c) = lowerChar c.
Proof.
  destruct c as [[] [] [] [] [] [] [] []]; vm_compute; reflexivity.
Qed.

Lemma toLowerCase_idem (s : string) : toLowerCase (toLowerCase s) = toLowerCase s.
Proof.
  induction s as [|c s IH]; simpl; [reflexivity|].
  now rewrite lowerChar_idem, IH.
Qed.

Lemma toLowerCase_app (a b : string) :
  toLowerCase (a +++ b) = toLowerCase a +++ toLowerCase b.
Proof. induction a as [|c a IH]; simpl; [reflexivity | now rewrite IH]. Qed.

Lemma toLowerCase_length (s : string) :
  String.length (toLowerCase s) = String.length s.
Proof. induction s as [|c s IH]; simpl; [reflexivity | now rewrite IH]. Qed.

(** A split of a lower-cased string comes from a split of the string. *)
Lemma toLowerCase_split (s x y : string) :
  toLowerCase s = x +++ y ->
  exists a b, s = a +++ b /\ toLowerCase a = x /\ toLowerCase b = y.
Proof.
  revert s. induction x as [|c x IH]; intros s H; simpl in H.
  - now exists "", s.
  - destruct s as [|d s]; simpl in H; [discriminate|].
    inversion H as [[Hc Hs]]. destruct (IH s Hs) as [a [b [-> [Ha Hb]]]].
    exists (String d a), b. simpl. now rewrite Ha, Hb.
Qed.

End StringFacts.


Lemma includes_lower_iff (c t : string) :
  includes (toLowerCase c) (toLowerCase t) = true <-> CISubstring t c.
Proof.
  rewrite includes_iff. split.
  - intros [pre' [post' H]].
    apply toLowerCase_split in H as [pre [rest [-> [Hpre Hrest]]]].
    apply toLowerCase_split in Hrest as [s [post [-> [Hs Hpost]]]].
    now exists pre, s, post.
  - intros [pre [s [post [-> Hs]]]].
    exists (toLowerCase pre), (toLowerCase post).
    now rewrite !toLowerCase_app, Hs.
Qed.

(** What the lower-cased content includes is in lower case itself. *)
Lemma included_is_lower (c t : string) :
  includes (toLowerCase c) t = true -> toLowerCase t = t.
Proof.
  rewrite includes_iff. intros [pre [post H]].
  assert (Hi : toLowerCase (toLowerCase c) = toLowerCase c)
    by apply toLowerCase_idem.
  rewrite H in Hi at 1. rewrite H in Hi.
  rewrite !toLowerCase_app in Hi.
  assert (Hlen : forall a b a' b', a +++ b = a' +++ b' ->
            String.length a = String.length a' -> a = a' /\ b = b').
  { induction a as [|x a IH]; intros b [|x' a'] b' E L; simpl in *;
      try discriminate; [auto|].
    inversion E. inversion L.
    destruct (IH b a' b') as [-> ->]; auto. }
  apply Hlen in Hi as [_ Hi]; [|apply toLowerCase_length].
  apply Hlen in Hi as [Hi _]; [assumption | apply toLowerCase_length].
Qed.

(** The scorer's test is case-insensitive containment, for any word. *)
Lemma scorer_test_iff (c t : string) :
  includes (toLowerCase c) t = true <->
  (toLowerCase t = t /\ CISubstring t c).
Proof.
  split.
  - intros H. pose proof (included_is_lower _ _ H) as Ht.
    split; [assumption|]. apply includes_lower_iff. now rewrite Ht.
  - intros [Ht H]. apply includes_lower_iff in H. now rewrite Ht in H.
Qed.

(* ================================================================== *)
(** ** Tokenizer *)
(* ================================================================== *)

Section Tokenizer.

Lemma filter_filter_weaker {A : Type} (p q : A -> bool) (l : list A) :
  (forall x, p x = true -> q x = true) ->
  filter p (filter q l) = filter p l.
Proof.
  intros Hpq. induction l as [|x l IH]; simpl; [reflexivity|].
  destruct (q x) eqn:Hq; simpl.
  - now rewrite IH.
  - destruct (p x) eqn:Hp; [|assumption].
    apply Hpq in Hp. congruence.
Qed.

(** The non-empty pieces of [split] are the tokens: the empty pieces
    that [split] leaves at the two ends are the only difference. *)
Lemma splitFrom_tokens (s : string) : forall inSep cur,
  (inSep = true -> cur = "") ->
  filter nonEmpty (splitFrom inSep cur s) =
  let (w, ws) := tokensFrom s in consToken (cur +++ w) ws.
Proof.
  induction s as [|c s IH]; intros inSep cur Hsep.
  - simpl. rewrite append_empty_r. now destruct cur.
  - cbn [splitFrom tokensFrom].
    destruct (tokensFrom s) as [w ws] eqn:Ht.
    destruct (isWhiteSpace c).
    + rewrite append_empty_r.
      assert (Hrest : filter nonEmpty (splitFrom true "" s) = consToken w ws).
      { rewrite (IH true "" (fun _ => eq_refl)). reflexivity. }
      destruct inSep.
      * rewrite (Hsep eq_refl). simpl. exact Hrest.
      * cbn [filter]. rewrite Hrest. now destruct cur.
    + rewrite (IH false (cur +++ String c "")); [|discriminate].
      rewrite append_assoc. reflexivity.
Qed.

Lemma split_tokens (s : string) : filter nonEmpty (split s) = tokens s.
Proof.
  unfold split, tokens.
  rewrite (splitFrom_tokens s false ""); [|discriminate].
  now destruct (tokensFrom s).
Qed.

Lemma arrayIncludes_stopWords (w : string) :
  arrayIncludes stopWords w = isStopWord w.
Proof.
  unfold arrayIncludes, isStopWord.
  destruct (in_dec string_dec w stopWords) as [Hin|Hnin].
  - apply existsb_exists. exists w. split; [assumption | apply String.eqb_refl].
  - destruct (existsb (String.eqb w) stopWords) eqn:He; [|reflexivity].
    apply existsb_exists in He as [x [Hx Hw]].
    apply String.eqb_eq in Hw. subst x. contradiction.
Qed.

Lemma tokensFrom_wellformed (s : string) :
  noWhiteSpace (fst (tokensFrom s)) /\
  Forall (fun t => t <> "" /\ noWhiteSpace t) (snd (tokensFrom s)).
Proof.
  induction s as [|c s [IHw IHws]]; simpl.
  - split; [|constructor]. intros [|x pre] d post H; discriminate.
  - destruct (tokensFrom s) as [w ws]; simpl in *.
    destruct (isWhiteSpace c) eqn:Hc; simpl.
    + split; [intros [|x pre] d post H; discriminate|].
      destruct w; [assumption|].
      constructor; [split; [discriminate | assumption] | assumption].
    + split; [|assumption].
      intros [|x pre] d post H; simpl in H; inversion H; subst.
      * assumption.
      * now apply (IHw pre d post).
Qed.

Lemma tokens_wellformed (s : string) :
  Forall (fun t => t <> "" /\ noWhiteSpace t) (tokens s).
Proof.
  unfold tokens. pose proof (tokensFrom_wellformed s) as [Hw Hws].
  destruct (tokensFrom s) as [w ws]; simpl in *.
  destruct w; [assumption|].
  constructor; [split; [discriminate | assumption] | assumption].
Qed.

End Tokenizer.

(** C7: for every question, the words that [findRelevantDocuments]
    extracts are exactly the tokens of the lower-cased question (its
    maximal runs of characters other than white space, in order) from
    which the tokens of length at most 2 and then the stop words have
    been discarded.  The result may be empty: it is for the empty
    question, for a question of stop words only and for a short
    punctuation-only question, and it is a list like any other. *)
Theorem extractTerms_refines_spec :
  (forall question, questionWords question = extractTerms_spec question) /\
  questionWords "" = [] /\
  questionWords "What is the" = [] /\
  questionWords "?!" = [].
Proof.
  split; [|now vm_compute].
  intros question. unfold questionWords, extractTerms_spec.
  rewrite <- split_tokens.
  rewrite (filter_filter_weaker
             (fun t => negb (String.length t <=? 2)) nonEmpty).
  - rewrite (filter_ext (fun word => 2 <? String.length word)
               (fun t => negb (String.length t <=? 2))).
    + apply filter_ext. intros w. now rewrite arrayIncludes_stopWords.
    + intros w. unfold Nat.ltb. destruct (String.length w) as [|[|[|n]]]; reflexivity.
  - intros [|c x]; [discriminate | reflexivity].
Qed.

(* ================================================================== *)
(** ** Relevance scorer *)
(* ================================================================== *)

Section Scorer.

Lemma forEach_count (cl : string) (words : list string) : forall n,
  forEach words
    (fun score word => if includes cl word then score + 1 else score) n =
  n + length (filter (includes cl) words).
Proof.
  unfold forEach. induction words as [|w words IH]; intros n; simpl.
  - lia.
  - rewrite IH. destruct (includes cl w); simpl; lia.
Qed.

Lemma scoreOf_count (words : list string) (doc : Document) :
  scoreOf words doc =
  length (filter (includes (toLowerCase (content doc))) words).
Proof. unfold scoreOf. now rewrite forEach_count. Qed.

Lemma filter_length_le {A : Type} (p : A -> bool) (l : list A) :
  length (filter p l) <= length l.
Proof.
  induction l as [|x l IH]; simpl; [lia|].
  destruct (p x); simpl; lia.
Qed.

Lemma filter_length_mono {A : Type} (p q : A -> bool) (l : list A) :
  (forall x, In x l -> p x = true -> q x = true) ->
  length (filter p l) <= length (filter q l).
Proof.
  induction l as [|x l IH]; intros H; simpl; [lia|].
  assert (IH' : length (filter p l) <= length (filter q l)).
  { apply IH. intros y Hy. apply H. now right. }
  destruct (p x) eqn:Hp.
  - rewrite (H x (or_introl eq_refl) Hp). simpl. lia.
  - destruct (q x); simpl; lia.
Qed.

(** The pieces of a lower-case string are in lower case. *)
Lemma splitFrom_lower (s : string) : forall inSep cur,
  toLowerCase cur = cur -> toLowerCase s = s ->
  Forall (fun t => toLowerCase t = t) (splitFrom inSep cur s).
Proof.
  induction s as [|c s IH]; intros inSep cur Hcur Hs; simpl.
  - now constructor.
  - simpl in Hs. inversion Hs as [[Hc Hs']]. rewrite Hc, Hs'.
    destruct (isWhiteSpace c).
    + destruct inSep; [|constructor; [assumption|]]; now apply IH.
    + apply IH; [|assumption].
      rewrite toLowerCase_app. simpl. now rewrite Hcur, Hc.
Qed.

Lemma questionWords_lower (question t : string) :
  In t (questionWords question) -> toLowerCase t = t.
Proof.
  unfold questionWords. intros H.
  apply filter_In in H as [H _]. apply filter_In in H as [H _].
  pose proof (splitFrom_lower (toLowerCase question) false ""
                eq_refl (toLowerCase_idem question)) as Hall.
  rewrite Forall_forall in Hall. now apply Hall.
Qed.

End Scorer.

(** C3, as the code has it: for every question and every document, the
    score is the number of entries of the question's word list that
    occur in the document's content as a substring when letter case is
    ignored, an entry that is repeated in the list being counted each
    time; it lies between 0 and the length of that list.  The test the
    code runs on a word of the question, [contentLower.includes(word)],
    is that case-insensitive containment. *)
Theorem score_counts_matching_words :
  forall (question : string) (doc : Document),
    (forall t, In t (questionWords question) ->
       (includes (toLowerCase (content doc)) t = true <->
        CISubstring t (content doc))) /\
    (forall t, ciIncludes (content doc) t = true <->
       CISubstring t (content doc)) /\
    scoreOf (questionWords question) doc =
      length (filter (ciIncludes (content doc)) (questionWords question)) /\
    0 <= scoreOf (questionWords question) doc <=
      length (questionWords question).
Proof.
  intros question doc.
  assert (Hword : forall t, In t (questionWords question) ->
            includes (toLowerCase (content doc)) t = ciIncludes (content doc) t).
  { intros t Ht. unfold ciIncludes.
    now rewrite (questionWords_lower question t Ht). }
  repeat split.
  - rewrite (Hword t H). apply includes_lower_iff.
  - rewrite (Hword t H). apply includes_lower_iff.
  - apply includes_lower_iff.
  - apply includes_lower_iff.
  - rewrite scoreOf_count. f_equal.
    generalize (questionWords question) Hword. clear.
    induction l as [|w l IH]; intros H; simpl; [reflexivity|].
    rewrite (H w (or_introl eq_refl)), IH; [reflexivity|].
    intros t Ht. apply H. now right.
  - lia.
  - rewrite scoreOf_count. apply filter_length_le.
Qed.

(** C3 as stated fails: the words of a question are a list in which a
    word can occur twice, and a document that contains such a word
    scores above the number of distinct words. *)
Lemma score_terms_not_a_set :
  questionWords "acme acme" = ["acme"; "acme"] /\
  ~ NoDup (questionWords "acme acme") /\
  length (nodup string_dec (questionWords "acme acme")) = 1 /\
  scoreOf (questionWords "acme acme") (companyDocument acme) = 2.
Proof.
  repeat split; try (vm_compute; reflexivity).
  intros H. vm_compute in H. inversion H as [|x l Hnin _].
  apply Hnin. now left.
Qed.

(** C8: for all documents A and B and every list of terms, if every
    term that occurs in B's content (as the scorer tests it, letter case
    ignored) also occurs in A's content, then A scores at least as much
    as B. *)
Theorem score_monotone :
  forall (terms : list string) (A B : Document),
    (forall t, In t terms ->
       CISubstring t (content B) -> CISubstring t (content A)) ->
    scoreOf terms B <= scoreOf terms A.
Proof.
  intros terms A B H. rewrite !scoreOf_count.
  apply filter_length_mono. intros t Ht HB.
  apply scorer_test_iff in HB as [Hlow HB].
  apply scorer_test_iff. split; [assumption | now apply H].
Qed.

Lemma score_monotone_witness :
  scoreOf ["ana"; "backend"] (missionDocument
     {| Mission.title := "Backend"; Mission.text := "We build APIs";
        Mission.items := ["Node"] |}) <=
  scoreOf ["ana"; "backend"] (employeeDocument
     {| Employee.name := "Ana"; Employee.role := "Engineer";
        Employee.area := "Backend" |}).
Proof.
  apply score_monotone.
  intros t [<-|[<-|[]]] _; apply includes_lower_iff; vm_compute; reflexivity.
Defined.

(* ================================================================== *)
(** ** Sorting by a key, highest first *)
(* ================================================================== *)

Section SortByKey.

Context {A : Type}.
Variable key : A -> nat.
Variable cmp : A -> A -> Z.
Hypothesis cmp_key : forall a b, cmp a b = (Z.of_nat (key b) - Z.of_nat (key a))%Z.

Lemma cmp_le_0 (a b : A) : (cmp a b <=? 0)%Z = (key b <=? key a).
Proof.
  rewrite cmp_key.
  destruct (key b <=? key a) eqn:E.
  - apply Nat.leb_le in E. apply Z.leb_le. lia.
  - apply Nat.leb_gt in E. apply Z.leb_gt. lia.
Qed.

Lemma insertSorted_perm (x : A) (l : list A) :
  Permutation (insertSorted cmp x l) (x :: l).
Proof.
  induction l as [|y l IH]; simpl; [reflexivity|].
  destruct (cmp x y <=? 0)%Z; [reflexivity|].
  rewrite IH. apply perm_swap.
Qed.

Lemma sort_perm (l : list A) : Permutation (sort cmp l) l.
Proof.
  induction l as [|x l IH]; simpl; [reflexivity|].
  rewrite insertSorted_perm. now constructor.
Qed.

Lemma insertSorted_sorted (x : A) (l : list A) :
  StronglySorted (fun a b => key b <= key a) l ->
  StronglySorted (fun a b => key b <= key a) (insertSorted cmp x l).
Proof.
  induction 1 as [|y l Hs IH Hall]; simpl.
  - constructor; constructor.
  - rewrite cmp_le_0. destruct (key y <=? key x) eqn:E.
    + apply Nat.leb_le in E. constructor; [now constructor|].
      constructor; [exact E|].
      eapply Forall_impl; [|exact Hall].
      cbv beta. intros z Hz. lia.
    + apply Nat.leb_gt in E. constructor; [assumption|].
      eapply Permutation_Forall; [symmetry; apply insertSorted_perm|].
      constructor; [cbv beta; lia | assumption].
Qed.

Lemma sort_sorted (l : list A) :
  StronglySorted (fun a b => key b <= key a) (sort cmp l).
Proof.
  induction l as [|x l IH]; simpl; [constructor|].
  now apply insertSorted_sorted.
Qed.

(** Stability: the elements of one key keep their relative order. *)
Lemma insertSorted_same_key (n : nat) (x : A) (l : list A) :
  filter (fun a => key a =? n) (insertSorted cmp x l) =
  filter (fun a => key a =? n) (x :: l).
Proof.
  induction l as [|y l IH]; [reflexivity|].
  cbn [insertSorted]. rewrite cmp_le_0.
  destruct (key y <=? key x) eqn:E; [reflexivity|].
  apply Nat.leb_gt in E.
  cbn [filter] in *. rewrite IH.
  destruct (key x =? n) eqn:Ex; destruct (key y =? n) eqn:Ey; try reflexivity.
  apply Nat.eqb_eq in Ex, Ey. lia.
Qed.

Lemma sort_same_key (n : nat) (l : list A) :
  filter (fun a => key a =? n) (sort cmp l) = filter (fun a => key a =? n) l.
Proof.
  induction l as [|x l IH]; [reflexivity|].
  cbn [sort]. rewrite insertSorted_same_key. cbn [filter]. now rewrite IH.
Qed.

(** A list in descending key order is determined by the sequences of
    its elements of each key: there is one stable ranking. *)
Lemma sorted_stable_unique (l1 : list A) : forall l2 : list A,
  StronglySorted (fun a b => key b <= key a) l1 ->
  StronglySorted (fun a b => key b <= key a) l2 ->
  (forall n, filter (fun a => key a =? n) l1 =
             filter (fun a => key a =? n) l2) ->
  l1 = l2.
Proof.
  induction l1 as [|x l1 IH]; intros [|y l2] S1 S2 H.
  - reflexivity.
  - specialize (H (key y)). cbn [filter] in H.
    rewrite Nat.eqb_refl in H. discriminate.
  - specialize (H (key x)). cbn [filter] in H.
    rewrite Nat.eqb_refl in H. discriminate.
  - inversion S1 as [|? ? S1' All1]; inversion S2 as [|? ? S2' All2]; subst.
    rewrite Forall_forall in All1, All2.
    assert (Hkey : key x = key y).
    { destruct (Nat.eq_dec (key x) (key y)) as [E|NE]; [assumption|].
      pose proof (H (key x)) as Hx. pose proof (H (key y)) as Hy.
      cbn [filter] in Hx, Hy. rewrite Nat.eqb_refl in Hx, Hy.
      destruct (key y =? key x) eqn:Eyx;
        [apply Nat.eqb_eq in Eyx; congruence|].
      destruct (key x =? key y) eqn:Exy;
        [apply Nat.eqb_eq in Exy; congruence|].
      assert (In x l2).
      { eapply proj1. apply filter_In. rewrite <- Hx. now left. }
      assert (In y l1).
      { eapply proj1. apply filter_In. rewrite Hy. now left. }
      pose proof (All1 y ltac:(assumption)).
      pose proof (All2 x ltac:(assumption)). simpl in *. lia. }
    assert (Hxy : x = y).
    { specialize (H (key x)). cbn [filter] in H.
      rewrite <- Hkey, Nat.eqb_refl in H. now inversion H. }
    subst y. f_equal. apply IH; try assumption.
    intros n. specialize (H n). cbn [filter] in H.
    destruct (key x =? n); [now inversion H | assumption].
Qed.

End SortByKey.


(* ================================================================== *)
(** ** Selector *)
(* ================================================================== *)

(** The ranking holds the scored documents of score above 0. *)
Lemma ranking_In (terms : list string) (documents : list Document)
  (s : ScoredDoc.t) :
  In s (sort byScoreDesc
          (filter (fun s => 0 <? ScoredDoc.score s)
             (map (fun d => spreadWithScore d (scoreOf terms d)) documents)))
  <->
  In s (map (fun d => spreadWithScore d (scoreOf terms d)) documents) /\
  0 < ScoredDoc.score s.
Proof.
  split.
  - intros Hs. apply (Permutation_in _ (sort_perm _ _)) in Hs.
    apply filter_In in Hs as [Hin Hpos]. apply Nat.ltb_lt in Hpos. auto.
  - intros [Hin Hpos].
    apply (Permutation_in _ (Permutation_sym (sort_perm _ _))).
    apply filter_In. split; [assumption | now apply Nat.ltb_lt].
Qed.

(** C5: for every list of terms and every document sequence, the
    selection is the first 5 entries of a ranking that holds exactly the
    scored documents of score above 0, in descending order of score,
    documents of equal score standing in their original order. *)
Theorem select_ranks_top5 :
  forall (terms : list string) (documents : list Document),
  exists ranked : list ScoredDoc.t,
    selectWith terms documents = firstn 5 ranked /\
    Permutation ranked
      (filter (fun s => 0 <? ScoredDoc.score s)
         (map (fun d => spreadWithScore d (scoreOf terms d)) documents)) /\
    (forall s, In s ranked <->
       In s (map (fun d => spreadWithScore d (scoreOf terms d)) documents) /\
       0 < ScoredDoc.score s) /\
    StronglySorted (fun a b => ScoredDoc.score b <= ScoredDoc.score a) ranked /\
    (forall n, 0 < n ->
       filter (fun s => ScoredDoc.score s =? n) ranked =
       filter (fun s => ScoredDoc.score s =? n)
         (map (fun d => spreadWithScore d (scoreOf terms d)) documents)).
Proof.
  intros terms documents.
  set (scored := map (fun d => spreadWithScore d (scoreOf terms d)) documents).
  set (positive := filter (fun s => 0 <? ScoredDoc.score s) scored).
  exists (sort byScoreDesc positive).
  assert (Hperm : Permutation (sort byScoreDesc positive) positive)
    by apply sort_perm.
  split; [reflexivity|]. split; [exact Hperm|]. split; [|split].
  - intros s. apply ranking_In.
  - apply (sort_sorted ScoredDoc.score byScoreDesc). reflexivity.
  - intros n Hn.
    rewrite (sort_same_key ScoredDoc.score byScoreDesc) by reflexivity.
    apply filter_filter_weaker. intros s Hs.
    apply Nat.eqb_eq in Hs. apply Nat.ltb_lt. lia.
Qed.

Lemma selectWith_nil_iff (terms : list string) (documents : list Document) :
  selectWith terms documents = [] <->
  forall doc, In doc documents -> scoreOf terms doc = 0.
Proof.
  unfold selectWith, slice0.
  pose proof (ranking_In terms documents) as Hin.
  set (ranked := sort byScoreDesc _) in *. clearbody ranked. split.
  - intros Hnil doc Hdoc.
    destruct (scoreOf terms doc) as [|n] eqn:Hs; [reflexivity|].
    assert (Hr : In (spreadWithScore doc (S n)) ranked).
    { apply Hin. split; [|simpl; lia].
      apply in_map_iff. exists doc. now rewrite Hs. }
    destruct ranked; [contradiction | discriminate].
  - intros Hzero. destruct ranked as [|s ranked]; [reflexivity|].
    destruct (Hin s) as [Hs _]. destruct (Hs (or_introl eq_refl)) as [Hmap Hpos].
    apply in_map_iff in Hmap as [doc [<- Hdoc]].
    simpl in Hpos. rewrite (Hzero doc Hdoc) in Hpos. lia.
Qed.

Lemma scoreOf_no_words (doc : Document) : scoreOf [] doc = 0.
Proof. reflexivity. Qed.

(* ================================================================== *)
(** ** Context assembly *)
(* ================================================================== *)

Section Context.

Lemma formatDocument_nonempty (doc : ScoredDoc.t) : formatDocument doc <> "".
Proof.
  unfold formatDocument. apply append_nonempty_r. discriminate.
Qed.

Lemma join_nonempty (sep x : string) (l : list string) :
  x <> "" -> join sep (x :: l) <> "".
Proof.
  intros Hx. destruct l as [|y l]; simpl; [assumption|].
  intros H. apply append_eq_empty in H. tauto.
Qed.

Lemma fallbackContext_nonempty (data : FaqData) : fallbackContext data <> "".
Proof. discriminate. Qed.

Lemma context_nonempty (data : FaqData) (relevantDocs : list ScoredDoc.t) :
  context data relevantDocs <> "".
Proof.
  unfold context. destruct relevantDocs as [|d l]; simpl.
  - apply fallbackContext_nonempty.
  - apply (join_nonempty delimiter (formatDocument d) (map formatDocument l)).
    apply formatDocument_nonempty.
Qed.

End Context.

(** C1 as stated fails: on the documents of the sample knowledge base,
    which are not empty, the selection is empty for the empty question,
    for a punctuation-only question and for a question of stop words. *)
Lemma select_can_be_empty :
  createDocumentsFromData acme <> [] /\
  findRelevantDocuments "" (createDocumentsFromData acme) = [] /\
  findRelevantDocuments "?!" (createDocumentsFromData acme) = [] /\
  findRelevantDocuments "what is the" (createDocumentsFromData acme) = [].
Proof.
  split; [discriminate|]. repeat split; vm_compute; reflexivity.
Qed.

(** C1, as the code has it: [findRelevantDocuments] returns a non-empty
    sequence exactly when some document scores above 0 for the question
    (so it is empty for a question without significant words); what is
    never empty, for every knowledge base and every question, is the
    context that [runFAQAgent] assembles from the selection. *)
Theorem select_nonempty_iff_context_nonempty :
  forall (data : FaqData) (question : string) (documents : list Document),
    (findRelevantDocuments question documents <> [] <->
     exists doc, In doc documents /\
                 0 < scoreOf (questionWords question) doc) /\
    (questionWords question = [] ->
     findRelevantDocuments question documents = []) /\
    buildContext data question <> "".
Proof.
  intros data question documents. unfold findRelevantDocuments.
  split; [|split].
  - rewrite selectWith_nil_iff. split.
    + intros Hne.
      destruct (existsb (fun d => 0 <? scoreOf (questionWords question) d)
                  documents) eqn:E.
      * apply existsb_exists in E as [doc [Hin Hpos]].
        exists doc. split; [assumption | now apply Nat.ltb_lt].
      * exfalso. apply Hne. intros doc Hdoc.
        assert (H := existsb_exists
                  (fun d => 0 <? scoreOf (questionWords question) d) documents).
        destruct (scoreOf (questionWords question) doc) as [|n] eqn:Hs;
          [reflexivity|].
        assert (Ht : existsb
                  (fun d => 0 <? scoreOf (questionWords question) d)
                  documents = true).
        { apply H. exists doc. split; [assumption|]. now rewrite Hs. }
        congruence.
    + intros [doc [Hin Hpos]] Hzero. rewrite (Hzero doc Hin) in Hpos. lia.
  - intros Hw. rewrite Hw. apply selectWith_nil_iff.
    intros doc _. apply scoreOf_no_words.
  - apply context_nonempty.
Qed.

(** C2: for every knowledge base and every question for which every
    derived document scores 0, the assembled context is the fallback
    text made of the company name and the mission statement, it is not
    the empty string, and the call builds it without throwing, whether
    the data comes from the cache or from a load that succeeds in this
    call.  A question with no significant word is such a question. *)
Theorem zero_match_gives_fallback :
  forall (data : FaqData) (question : string) (file : option FaqData)
         (st : Process),
    (forall doc, In doc (createDocumentsFromData data) ->
       scoreOf (questionWords question) doc = 0) ->
    faqDataCache st = Some data \/
      (faqDataCache st = None /\ file = Some data) ->
    buildContext data question =
      "Company: " +++ companyName (en data) +++ LF +++
      missionStatement (en data) /\
    buildContext data question <> "" /\
    snd (runFAQAgent file question st) =
      Built (createDocumentsFromData data) [] (buildContext data question).
Proof.
  intros data question file st Hzero Hsrc.
  assert (Hsel : findRelevantDocuments question
                   (createDocumentsFromData data) = []).
  { apply selectWith_nil_iff. exact Hzero. }
  assert (Hctx : buildContext data question = fallbackContext data).
  { unfold buildContext. now rewrite Hsel. }
  split; [exact Hctx|]. split; [apply context_nonempty|].
  unfold runFAQAgent, built.
  destruct Hsrc as [Hc | [Hc Hf]]; rewrite Hc; [|rewrite Hf]; simpl;
    unfold buildContext; now rewrite Hsel.
Qed.

Lemma zero_match_gives_fallback_witness :
  buildContext acme "" = "Company: Acme" +++ LF +++ "We build APIs" /\
  buildContext acme "" <> "" /\
  snd (runFAQAgent (Some acme) "" initialProcess) =
    Built (createDocumentsFromData acme) [] (buildContext acme "").
Proof.
  apply (zero_match_gives_fallback acme "" (Some acme) initialProcess).
  - intros doc _. vm_compute. reflexivity.
  - right. split; reflexivity.
Defined.

(* ================================================================== *)
(** ** Document derivation *)
(* ================================================================== *)

Section Derivation.

(** Pushing one document per element appends the mapped array. *)
Lemma forEach_push {A B : Type} (f : A -> B) (arr : list A) :
  forall documents : list B,
    forEach arr (fun documents x => push documents (f x)) documents =
    documents ++ map f arr.
Proof.
  unfold forEach, push.
  induction arr as [|x arr IH]; intros documents; simpl.
  - now rewrite app_nil_r.
  - rewrite IH, <- app_assoc. reflexivity.
Qed.

Lemma createDocumentsFromData_eq (data : FaqData) :
  createDocumentsFromData data =
  [companyDocument data] ++
  map employeeDocument (employees (en data)) ++
  map missionDocument (mission (en data)) ++
  [contactDocument data].
Proof.
  unfold createDocumentsFromData. rewrite !forEach_push.
  unfold push. simpl. now rewrite <- !app_assoc.
Qed.

Lemma map_const_repeat {A B : Type} (f : A -> B) (b : B) (l : list A) :
  (forall x, f x = b) -> map f l = repeat b (length l).
Proof.
  intros H. induction l as [|x l IH]; simpl; [reflexivity|].
  now rewrite H, IH.
Qed.

End Derivation.

(** C6: for every knowledge base, [createDocumentsFromData] yields
    1 + |employees| + |missions| + 1 documents: the company document,
    then one employee document per employee in the order of the
    knowledge base, then one mission document per mission area in the
    order of the knowledge base, then the contact document; their type
    tags are company_info, employee ..., mission ..., contact. *)
Theorem derivation_complete_and_ordered :
  forall data : FaqData,
    createDocumentsFromData data =
      [companyDocument data] ++
      map employeeDocument (employees (en data)) ++
      map missionDocument (mission (en data)) ++
      [contactDocument data] /\
    length (createDocumentsFromData data) =
      1 + length (employees (en data)) + length (mission (en data)) + 1 /\
    map type (createDocumentsFromData data) =
      ["company_info"] ++
      repeat "employee" (length (employees (en data))) ++
      repeat "mission" (length (mission (en data))) ++
      ["contact"].
Proof.
  intros data. rewrite createDocumentsFromData_eq.
  split; [reflexivity|]. split.
  - rewrite !length_app, !length_map. simpl. lia.
  - rewrite !map_app, !map_map. simpl. do 2 f_equal.
    + now apply map_const_repeat.
    + f_equal. now apply map_const_repeat.
Qed.

(** C9: for every knowledge base, empty string fields included, every
    derived document has a content that is not the empty string and a
    type that is exactly one of the four tags company_info, employee,
    mission and contact. *)
Theorem derived_documents_wellformed :
  forall data : FaqData,
    Forall (fun doc =>
              content doc <> "" /\
              exists! tag, In tag categoryTags /\ type doc = tag)
      (createDocumentsFromData data).
Proof.
  intros data. rewrite createDocumentsFromData_eq.
  assert (Htag : forall ty, In ty categoryTags ->
            exists! tag, In tag categoryTags /\ ty = tag).
  { intros ty Hty. exists ty. split; [now split|]. now intros tag [_ <-]. }
  repeat rewrite Forall_app. repeat split.
  - constructor; [|constructor]. split; [discriminate|].
    apply Htag. simpl. auto.
  - apply Forall_forall. intros doc Hdoc.
    apply in_map_iff in Hdoc as [emp [<- _]]. split; [discriminate|].
    apply Htag. simpl. auto.
  - apply Forall_forall. intros doc Hdoc.
    apply in_map_iff in Hdoc as [m [<- _]]. split.
    + unfold missionDocument. cbn [content].
      apply append_nonempty_r. discriminate.
    + apply Htag. simpl. auto.
  - constructor; [|constructor]. split; [discriminate|].
    apply Htag. simpl. auto.
Qed.

(* ================================================================== *)
(** ** The cache *)
(* ================================================================== *)

Section Cache.

(** Once the cache is filled, a call neither loads nor changes it. *)
Lemma runFAQAgent_cached (data : FaqData) (file : option FaqData)
  (question : string) (st : Process) :
  faqDataCache st = Some data ->
  runFAQAgent file question st = (st, built data question).
Proof. intros H. unfold runFAQAgent. now rewrite H. Qed.

Lemma runCalls_cached (data : FaqData)
  (calls : list (option FaqData * string)) (st : Process) :
  faqDataCache st = Some data ->
  runCalls calls st = (st, map (fun call => built data (snd call)) calls).
Proof.
  intros H. induction calls as [|[file question] calls IH]; simpl.
  - reflexivity.
  - rewrite (runFAQAgent_cached data), IH by assumption. reflexivity.
Qed.

(** When the load throws the cache stays empty and the next call loads
    again. *)
Lemma loader_retried_after_failure :
  loaderCalls (fst (runCalls [(None, "a"); (Some acme, "b")] initialProcess))
  = 2.
Proof. reflexivity. Qed.

End Cache.

(** C4 as stated fails: when the read or the parse of the first call
    throws, that call throws, the cache stays empty, and the second call
    runs the loader again: two calls, two loads. *)
Lemma loader_runs_again_after_failed_load :
  snd (runFAQAgent None "a" initialProcess) = Threw /\
  faqDataCache (fst (runFAQAgent None "a" initialProcess)) = None /\
  loaderCalls
    (fst (runCalls [(None, "a"); (Some acme, "b")] initialProcess)) = 2 /\
  snd (runCalls [(None, "a"); (Some acme, "b")] initialProcess) =
    [Threw; built acme "b"].
Proof. repeat split. Qed.

(** C4, as the code has it: in a process whose first call loads the
    knowledge base successfully, however many calls follow and whatever
    the file holds by then, the loader has run exactly once, during the
    first call, and the documents derived in every call are those
    derived in the first. *)
Theorem loader_runs_once :
  forall (data : FaqData) (question : string)
         (later : list (option FaqData * string)),
    loaderCalls (fst (runFAQAgent (Some data) question initialProcess)) = 1 /\
    loaderCalls
      (fst (runCalls ((Some data, question) :: later) initialProcess)) = 1 /\
    faqDataCache
      (fst (runCalls ((Some data, question) :: later) initialProcess))
      = Some data /\
    Forall (fun out =>
              outcomeDocuments out =
              outcomeDocuments
                (snd (runFAQAgent (Some data) question initialProcess)))
      (snd (runCalls ((Some data, question) :: later) initialProcess)) /\
    outcomeDocuments (snd (runFAQAgent (Some data) question initialProcess))
      = Some (createDocumentsFromData data).
Proof.
  intros data question later.
  cbn [runCalls]. cbn [runFAQAgent initialProcess faqDataCache loaderCalls].
  rewrite (runCalls_cached data) by reflexivity.
  cbn [fst snd loaderCalls faqDataCache].
  repeat split.
  constructor; [reflexivity|].
  apply Forall_forall. intros out Hout.
  apply in_map_iff in Hout as [call [<- _]]. reflexivity.
Qed.

(* ================================================================== *)
(** ** The selection over the object store *)
(* ================================================================== *)

Section StoreFacts.

Import Store.

Variable words : list string.




Lemma filter_map_comm {A B : Type} (f : A -> B) (p : B -> bool) (l : list A) :
  filter p (map f l) = map f (filter (fun x => p (f x)) l).
Proof.
  induction l as [|x l IH]; simpl; [reflexivity|].
  rewrite IH. now destruct (p (f x)).
Qed.

Lemma firstn_incl {A : Type} (n : nat) (l : list A) (x : A) :
  In x (firstn n l) -> In x l.
Proof.
  intros H. rewrite <- (firstn_skipn n l). apply in_or_app. now left.
Qed.

End StoreFacts.

Section StoreSelection.

Import Store.

Variable words : list string.
Variable h : store.
Variable docs : list Document.






End StoreSelection.



(* ================================================================== *)
(** ** HTML escaping *)
(* ================================================================== *)

Section Escaping.

Import Server.

Lemma replaceAll_app (c : ascii) (rep a b : string) :
  replaceAll c rep (a +++ b) = replaceAll c rep a +++ replaceAll c rep b.
Proof.
  induction a as [|x a IH]; simpl; [reflexivity|].
  destruct (Ascii.eqb x c); simpl; rewrite IH; [|reflexivity].
  now rewrite append_assoc.
Qed.

Lemma escapeHtml_app (a b : string) :
  escapeHtml (a +++ b) = escapeHtml a +++ escapeHtml b.
Proof. unfold escapeHtml. now rewrite !replaceAll_app. Qed.

Lemma escapeHtml_single (c : ascii) :
  escapeHtml (String c "") = escapeChar c.
Proof.
  destruct c as [[] [] [] [] [] [] [] []]; vm_compute; reflexivity.
Qed.

Lemma escapeHtml_cons (c : ascii) (rest : string) :
  escapeHtml (String c rest) = escapeChar c +++ escapeHtml rest.
Proof.
  change (String c rest) with (String c "" +++ rest).
  now rewrite escapeHtml_app, escapeHtml_single.
Qed.

Lemma countChar_app (c : ascii) (a b : string) :
  countChar c (a +++ b) = countChar c a + countChar c b.
Proof.
  induction a as [|x a IH]; simpl; [reflexivity|]. rewrite IH. lia.
Qed.

Lemma isMarkup_cases (c : ascii) :
  isMarkup c = true -> c = "<"%char \/ c = ">"%char \/ c = DQ \/ c = "'"%char.
Proof.
  unfold isMarkup. rewrite !orb_true_iff, !Ascii.eqb_eq. tauto.
Qed.

Lemma escapeChar_no_markup (c x : ascii) :
  isMarkup c = true -> countChar c (escapeChar x) = 0.
Proof.
  intros Hc. apply isMarkup_cases in Hc.
  destruct Hc as [-> | [-> | [-> | ->]]];
    destruct x as [[] [] [] [] [] [] [] []]; vm_compute; reflexivity.
Qed.

(** The six shapes of an escaped character. *)
Lemma escapeChar_cases (x : ascii) :
  (x = "&"%char /\ escapeChar x = "&amp;") \/
  (x = "<"%char /\ escapeChar x = "&lt;") \/
  (x = ">"%char /\ escapeChar x = "&gt;") \/
  (x = DQ /\ escapeChar x = "&quot;") \/
  (x = "'"%char /\ escapeChar x = "&#039;") \/
  (x <> "&"%char /\ escapeChar x = String x "").
Proof.
  unfold escapeChar.
  destruct (Ascii.eqb_spec x "&"); [now left|].
  destruct (Ascii.eqb_spec x "<"); [now (right; left)|].
  destruct (Ascii.eqb_spec x ">"); [now (right; right; left)|].
  destruct (Ascii.eqb_spec x DQ); [now (right; right; right; left)|].
  destruct (Ascii.eqb_spec x "'"); [now (right; right; right; right; left)|].
  now (right; right; right; right; right).
Qed.

Lemma escapeChar_prefix_free (x y : ascii) (ra rb : string) :
  escapeChar x +++ ra = escapeChar y +++ rb -> x = y /\ ra = rb.
Proof.
  intros H.
  destruct (escapeChar_cases x) as [[Hx Ex]|[[Hx Ex]|[[Hx Ex]|[[Hx Ex]|[[Hx Ex]|[Hx Ex]]]]]];
  destruct (escapeChar_cases y) as [[Hy Ey]|[[Hy Ey]|[[Hy Ey]|[[Hy Ey]|[[Hy Ey]|[Hy Ey]]]]]];
  rewrite Ex, Ey in H; simpl in H; inversion H; subst;
  try (split; congruence); try congruence.
Qed.

Lemma escapeHtml_markup_free (text : string) (c : ascii) :
  isMarkup c = true -> countChar c (escapeHtml text) = 0.
Proof.
  intros Hc. induction text as [|x text IH]; [reflexivity|].
  rewrite escapeHtml_cons, countChar_app, IH.
  rewrite (escapeChar_no_markup c x Hc). reflexivity.
Qed.

End Escaping.

(** [escapeHtml]: the five chained replacements amount to one pass that
    turns each of the characters ampersand, less-than, greater-than,
    double quote and apostrophe into its entity and keeps every other
    character; an ampersand written by a later replacement is never
    escaped again, and escaping a concatenation is concatenating the
    escaped parts. *)
Theorem escapeHtml_is_one_pass :
  forall text : string,
    Server.escapeHtml text = Server.escapeOnePass text /\
    forall rest : string,
      Server.escapeHtml (text +++ rest) =
      Server.escapeHtml text +++ Server.escapeHtml rest.
Proof.
  intros text. split; [|intros rest; apply escapeHtml_app].
  induction text as [|c text IH]; [reflexivity|].
  rewrite escapeHtml_cons, IH. reflexivity.
Qed.

(** The escaped text contains no less-than, greater-than, double quote
    or apostrophe, whatever the input. *)
Theorem escapeHtml_no_markup :
  forall (text : string) (c : ascii),
    Server.isMarkup c = true ->
    countChar c (Server.escapeHtml text) = 0.
Proof.
  intros text c Hc. now apply escapeHtml_markup_free.
Qed.

Lemma escapeHtml_no_markup_witness :
  countChar "<" (Server.escapeHtml "<b>Tom & 'Jerry'</b>") = 0.
Proof. apply escapeHtml_no_markup. reflexivity. Defined.

(** Escaping loses nothing: two texts with the same escaped form are the
    same text. *)
Theorem escapeHtml_injective :
  forall a b : string,
    Server.escapeHtml a = Server.escapeHtml b -> a = b.
Proof.
  induction a as [|x a IH]; intros [|y b] H.
  - reflexivity.
  - rewrite escapeHtml_cons in H. exfalso.
    destruct (escapeChar_cases y) as [[_ E]|[[_ E]|[[_ E]|[[_ E]|[[_ E]|[_ E]]]]]];
      rewrite E in H; discriminate.
  - rewrite escapeHtml_cons in H. exfalso.
    destruct (escapeChar_cases x) as [[_ E]|[[_ E]|[[_ E]|[[_ E]|[[_ E]|[_ E]]]]]];
      rewrite E in H; discriminate.
  - rewrite !escapeHtml_cons in H.
    apply escapeChar_prefix_free in H as [-> H]. f_equal. now apply IH.
Qed.

Lemma escapeHtml_injective_witness : "a<b" = "a<b".
Proof. apply escapeHtml_injective. reflexivity. Defined.

(* ================================================================== *)
(** ** Trimming *)
(* ================================================================== *)

Section Trimming.

Lemma length_zero_iff (s : string) : (String.length s =? 0) = negb (nonEmpty s).
Proof. now destruct s. Qed.

Lemma trimStart_empty_iff (s : string) :
  trimStart s = "" <-> allWhiteSpace s = true.
Proof.
  induction s as [|c s IH]; simpl; [tauto|].
  destruct (isWhiteSpace c); simpl; [exact IH|].
  split; discriminate.
Qed.

Lemma trimEnd_empty_iff (s : string) :
  trimEnd s = "" <-> allWhiteSpace s = true.
Proof.
  induction s as [|c s IH]; simpl; [tauto|].
  destruct (trimEnd s) as [|x t] eqn:E.
  - destruct (isWhiteSpace c); simpl.
    + split; [intros _; now apply IH | reflexivity].
    + split; discriminate.
  - split; [discriminate|]. intros H.
    apply andb_true_iff in H as [_ H]. apply IH in H. discriminate.
Qed.

Lemma trimStart_allWhiteSpace (s : string) :
  allWhiteSpace (trimStart s) = allWhiteSpace s.
Proof.
  induction s as [|c s IH]; simpl; [reflexivity|].
  destruct (isWhiteSpace c) eqn:E; simpl; [exact IH | now rewrite E].
Qed.

Lemma trim_empty_iff (s : string) : trim s = "" <-> allWhiteSpace s = true.
Proof.
  unfold trim. now rewrite trimEnd_empty_iff, trimStart_allWhiteSpace.
Qed.

Lemma trimStart_first (s : string) (c : ascii) :
  firstChar (trimStart s) = Some c -> isWhiteSpace c = false.
Proof.
  induction s as [|x s IH]; simpl; [discriminate|].
  destruct (isWhiteSpace x) eqn:E; [exact IH|].
  simpl. intros H. now inversion H; subst.
Qed.

Lemma trimEnd_first (s : string) :
  trimEnd s <> "" -> firstChar (trimEnd s) = firstChar s.
Proof.
  destruct s as [|c s]; simpl; [reflexivity|].
  destruct (trimEnd s); [|reflexivity].
  destruct (isWhiteSpace c); [congruence | reflexivity].
Qed.

Lemma trimEnd_last (s : string) (c : ascii) :
  lastChar (trimEnd s) = Some c -> isWhiteSpace c = false.
Proof.
  induction s as [|x s IH]; simpl; [discriminate|].
  destruct (trimEnd s) as [|y t] eqn:E.
  - destruct (isWhiteSpace x) eqn:Ex; simpl; [discriminate|].
    intros H. now inversion H; subst.
  - exact IH.
Qed.

(** [trim] takes white space away at the two ends and nowhere else. *)
Lemma trimStart_decompose (s : string) :
  exists lead, s = lead +++ trimStart s /\ allWhiteSpace lead = true.
Proof.
  induction s as [|c s [lead [Hs Hl]]]; simpl.
  - now exists "".
  - destruct (isWhiteSpace c) eqn:E.
    + exists (String c lead). simpl. rewrite E, Hl. split; [now f_equal | reflexivity].
    + now exists "".
Qed.

Lemma trimEnd_decompose (s : string) :
  exists trail, s = trimEnd s +++ trail /\ allWhiteSpace trail = true.
Proof.
  induction s as [|c s [trail [Hs Hl]]]; simpl.
  - now exists "".
  - destruct (trimEnd s) as [|y t] eqn:E.
    + destruct (isWhiteSpace c) eqn:Ec.
      * exists (String c s). simpl. rewrite Ec. split; [reflexivity|].
        now apply trimEnd_empty_iff.
      * exists trail. simpl. split; [now f_equal | assumption].
    + exists trail. simpl. split; [now f_equal | assumption].
Qed.

Lemma trim_ends (s : string) :
  (exists lead trail,
     s = lead +++ trim s +++ trail /\
     allWhiteSpace lead = true /\ allWhiteSpace trail = true) /\
  (forall c, firstChar (trim s) = Some c -> isWhiteSpace c = false) /\
  (forall c, lastChar (trim s) = Some c -> isWhiteSpace c = false).
Proof.
  unfold trim. split; [|split].
  - destruct (trimStart_decompose s) as [lead [Hs Hl]].
    destruct (trimEnd_decompose (trimStart s)) as [trail [Ht Htl]].
    exists lead, trail. split; [|auto]. now rewrite <- Ht.
  - intros c Hc. destruct (trimEnd (trimStart s)) eqn:E; [discriminate|].
    rewrite <- E in Hc. rewrite trimEnd_first in Hc by congruence.
    now apply (trimStart_first s).
  - apply trimEnd_last.
Qed.

End Trimming.

(* ================================================================== *)
(** ** The request handlers *)
(* ================================================================== *)

Section Handlers.

Import Server.

(** The guard of lines 35 and 64 on a string: it rejects the blank
    strings. *)
Lemma guard_is_blank (s : string) :
  negb (nonEmpty s) || (String.length (trim s) =? 0) = allWhiteSpace s.
Proof.
  rewrite length_zero_iff.
  destruct (allWhiteSpace s) eqn:E.
  - apply trim_empty_iff in E. rewrite E. simpl. apply orb_true_r.
  - destruct s as [|c s]; [discriminate|]. cbn [nonEmpty negb orb].
    destruct (trim (String c s)) eqn:Et; [|reflexivity].
    apply trim_empty_iff in Et. congruence.
Qed.


Lemma messagePair_markup (c : ascii) (question answer : string) :
  isMarkup c = true ->
  countChar c (messagePair question answer) = countChar c (messagePair "" "").
Proof.
  intros Hc. unfold messagePair. rewrite !countChar_app.
  rewrite !(escapeHtml_markup_free _ c Hc). reflexivity.
Qed.

Lemma errorFragment_markup (c : ascii) (m1 m2 : string) :
  isMarkup c = true ->
  countChar c (errorFragment m1) = countChar c (errorFragment m2).
Proof.
  intros Hc. unfold errorFragment. rewrite !countChar_app.
  rewrite !(escapeHtml_markup_free _ c Hc). reflexivity.
Qed.

(** The body of a [POST /ask] response is one of the three fragments,
    chosen with the status. *)
Lemma postAsk_shape (cannotRead notAFunction : string)
  (run : string -> AgentResult) (reqBody : option JsValue) :
  (status (postAsk cannotRead notAFunction run reqBody) = 400 /\
   body (postAsk cannotRead notAFunction run reqBody) = enterQuestion) \/
  (status (postAsk cannotRead notAFunction run reqBody) = 200 /\
   exists q a,
     body (postAsk cannotRead notAFunction run reqBody) = messagePair q a) \/
  (status (postAsk cannotRead notAFunction run reqBody) = 500 /\
   exists m,
     body (postAsk cannotRead notAFunction run reqBody) = errorFragment m).
Proof.
  destruct reqBody as [[| |s|]|]; simpl; auto.
  - destruct (negb (nonEmpty (trim s)) || (String.length (trim s) =? 0));
      simpl; auto.
    destruct (run (trim s)) as [a|m]; simpl.
    + right. left. split; [reflexivity|]. now exists (trim s), a.
    + right. right. split; [reflexivity|]. now exists m.
  - right. right. split; [reflexivity|]. now exists notAFunction.
  - right. right. split; [reflexivity|]. now exists cannotRead.
Qed.

(** The two JSON handlers once the question has been read. *)
Lemma answerJson_guard (invalid : Json) (run : string -> AgentResult)
  (value : JsValue) :
  (status (answerJson invalid run value) = 400 <->
   forall s, value = VString s -> allWhiteSpace s = true) /\
  (status (answerJson invalid run value) = 400 ->
   agentCalls (answerJson invalid run value) = [] /\
   body (answerJson invalid run value) = invalid) /\
  (forall s, value = VString s -> allWhiteSpace s = false ->
     answersTrimmed run s (answerJson invalid run value) /\
     trim s <> "" /\
     (forall c, firstChar (trim s) = Some c -> isWhiteSpace c = false) /\
     (forall c, lastChar (trim s) = Some c -> isWhiteSpace c = false)).
Proof.
  destruct value as [| |s|]; cbn [answerJson];
    try (split; [split; [intros _ s Hs; discriminate | reflexivity]
                | split; [intros _; split; reflexivity
                         | intros s Hs; discriminate]]).
  rewrite guard_is_blank.
  destruct (allWhiteSpace s) eqn:E.
  - split; [|split].
    + split; [intros _ s' Hs'; now inversion Hs'; subst | reflexivity].
    + intros _. split; reflexivity.
    + intros s' Hs' Hw. inversion Hs'; subst. congruence.
  - assert (Hne : status
              match run (trim s) with
              | Resolved answer =>
                  {| status := 200;
                     body := JObject [("question", JString (trim s));
                                      ("answer", JString answer)];
                     agentCalls := [trim s] |}
              | RejectedWith message =>
                  {| status := 500; body := internalError message;
                     agentCalls := [trim s] |}
              end <> 400)
      by (destruct (run (trim s)); discriminate).
    split; [|split].
    + split; [intros H; contradiction|].
      intros H. specialize (H s eq_refl). congruence.
    + intros H. contradiction.
    + intros s' Hs' _. inversion Hs'; subst s'.
      destruct (trim_ends s) as [_ [Hfirst Hlast]].
      assert (Htrim : trim s <> "").
      { intros Ht. apply trim_empty_iff in Ht. congruence. }
      unfold answersTrimmed.
      destruct (run (trim s)); cbn; repeat split; assumption.
Qed.

End Handlers.

(** [POST /api/ask] and [GET /api/ask].  A POST request without a
    parsed body makes the read of [req.body] throw and is answered 500,
    the agent not called.  Otherwise the response is 400, with the
    invalid-request body and the agent not called, exactly when the
    question is not a string or is a string of white space only (the
    empty string included); and for a string with a character that is
    not white space the agent is called once, with the question
    trimmed: a non-empty string without white space at either end,
    which is also the question echoed in the 200 response; a rejected
    agent call gives 500. *)
Theorem apiAsk_validates :
  forall (cannotRead : string) (run : string -> Server.AgentResult)
         (reqBody : option Server.JsValue) (q : Server.JsValue),
    (reqBody = None ->
     Server.status (Server.postApiAsk cannotRead run reqBody) = 500 /\
     Server.agentCalls (Server.postApiAsk cannotRead run reqBody) = [] /\
     Server.body (Server.postApiAsk cannotRead run reqBody) =
       Server.internalError cannotRead) /\
    (Server.status (Server.postApiAsk cannotRead run reqBody) = 400 <->
     exists value, reqBody = Some value /\
       forall s, value = Server.VString s -> allWhiteSpace s = true) /\
    (Server.status (Server.postApiAsk cannotRead run reqBody) = 400 ->
     Server.agentCalls (Server.postApiAsk cannotRead run reqBody) = [] /\
     Server.body (Server.postApiAsk cannotRead run reqBody) =
       Server.postInvalidRequest) /\
    (forall s, reqBody = Some (Server.VString s) ->
       allWhiteSpace s = false ->
       Server.answersTrimmed run s
         (Server.postApiAsk cannotRead run reqBody) /\
       trim s <> "" /\
       (forall c, firstChar (trim s) = Some c -> isWhiteSpace c = false) /\
       (forall c, lastChar (trim s) = Some c -> isWhiteSpace c = false)) /\
    (Server.status (Server.getApiAsk run q) = 400 <->
     forall s, q = Server.VString s -> allWhiteSpace s = true) /\
    (Server.status (Server.getApiAsk run q) = 400 ->
     Server.agentCalls (Server.getApiAsk run q) = [] /\
     Server.body (Server.getApiAsk run q) = Server.getInvalidRequest) /\
    (forall s, q = Server.VString s -> allWhiteSpace s = false ->
       Server.answersTrimmed run s (Server.getApiAsk run q) /\
       trim s <> "" /\
       (forall c, firstChar (trim s) = Some c -> isWhiteSpace c = false) /\
       (forall c, lastChar (trim s) = Some c -> isWhiteSpace c = false)).
Proof.
  intros cannotRead run reqBody q.
  destruct (answerJson_guard Server.getInvalidRequest run q)
    as [G1 [G2 G3]].
  split; [|split; [|split; [|split; [|split; [exact G1|split;
    [exact G2 | exact G3]]]]]].
  - intros ->. repeat split.
  - destruct reqBody as [value|]; cbn [Server.postApiAsk].
    + destruct (answerJson_guard Server.postInvalidRequest run value)
        as [P1 _].
      rewrite P1. split.
      * intros H. now exists value.
      * intros [v [Hv H]]. inversion Hv; subst. exact H.
    + split; [discriminate|]. intros [v [Hv _]]. discriminate.
  - destruct reqBody as [value|]; cbn [Server.postApiAsk].
    + apply (answerJson_guard Server.postInvalidRequest run value).
    + discriminate.
  - intros s -> Hs. cbn [Server.postApiAsk].
    now apply (answerJson_guard Server.postInvalidRequest run
                 (Server.VString s)).
Qed.


(** [POST /ask]: whatever the request, the answer of the agent and the
    error message are, the less-than and greater-than signs, double
    quotes and apostrophes of the HTML sent are those of the fragment
    for its status: text from the request or from the agent adds none. *)
Theorem postAsk_markup_fixed_by_status :
  forall (r1 r2 n1 n2 : string) (run1 run2 : string -> Server.AgentResult)
         (b1 b2 : option Server.JsValue) (c : ascii),
    Server.isMarkup c = true ->
    Server.status (Server.postAsk r1 n1 run1 b1) =
    Server.status (Server.postAsk r2 n2 run2 b2) ->
    countChar c (Server.body (Server.postAsk r1 n1 run1 b1)) =
    countChar c (Server.body (Server.postAsk r2 n2 run2 b2)).
Proof.
  intros r1 r2 n1 n2 run1 run2 b1 b2 c Hc Hs.
  destruct (postAsk_shape r1 n1 run1 b1)
    as [[S1 B1]|[[S1 [q1 [a1 B1]]]|[S1 [e1 B1]]]];
  destruct (postAsk_shape r2 n2 run2 b2)
    as [[S2 B2]|[[S2 [q2 [a2 B2]]]|[S2 [e2 B2]]]];
  rewrite S1, S2 in Hs; try discriminate; rewrite B1, B2.
  - reflexivity.
  - rewrite (messagePair_markup c q1 a1 Hc). symmetry.
    now apply messagePair_markup.
  - now apply errorFragment_markup.
Qed.

Lemma postAsk_markup_fixed_by_status_witness :
  countChar "<"
    (Server.body (Server.postAsk "" "" (fun q => Server.Resolved "<i>ok</i>")
                    (Some (Server.VString "<script>")))) =
  countChar "<"
    (Server.body (Server.postAsk "" "" (fun q => Server.Resolved "fine")
                    (Some (Server.VString "hello")))).
Proof.
  apply postAsk_markup_fixed_by_status; reflexivity.
Defined.

(* ================================================================== *)
(** ** Tokens under trimming and joining *)
(* ================================================================== *)

Section TokensCompose.

Lemma questionWords_tokens (question : string) :
  questionWords question =
  filter (fun word => negb (arrayIncludes stopWords word))
    (filter (fun word => 2 <? String.length word)
       (tokens (toLowerCase question))).
Proof.
  unfold questionWords. rewrite <- split_tokens.
  rewrite (filter_filter_weaker (fun word => 2 <? String.length word) nonEmpty);
    [reflexivity|].
  intros [|c x]; [discriminate | reflexivity].
Qed.

Lemma isWhiteSpace_lowerChar (c : ascii) :
  isWhiteSpace (lowerChar c) = isWhiteSpace c.
Proof.
  destruct c as [[] [] [] [] [] [] [] []]; vm_compute; reflexivity.
Qed.

Lemma toLowerCase_trimStart (s : string) :
  toLowerCase (trimStart s) = trimStart (toLowerCase s).
Proof.
  induction s as [|c s IH]; simpl; [reflexivity|].
  rewrite isWhiteSpace_lowerChar. now destruct (isWhiteSpace c).
Qed.

Lemma toLowerCase_trimEnd (s : string) :
  toLowerCase (trimEnd s) = trimEnd (toLowerCase s).
Proof.
  induction s as [|c s IH]; simpl; [reflexivity|].
  rewrite <- IH, isWhiteSpace_lowerChar.
  destruct (trimEnd s); simpl; [|reflexivity].
  now destruct (isWhiteSpace c).
Qed.

Lemma tokens_trimStart (s : string) : tokens (trimStart s) = tokens s.
Proof.
  induction s as [|c s IH]; [reflexivity|].
  cbn [trimStart]. destruct (isWhiteSpace c) eqn:E; [|reflexivity].
  rewrite IH. unfold tokens. cbn [tokensFrom]. rewrite E.
  now destruct (tokensFrom s).
Qed.

Lemma tokensFrom_trimEnd (s : string) : tokensFrom (trimEnd s) = tokensFrom s.
Proof.
  induction s as [|c s IH]; [reflexivity|].
  cbn [trimEnd]. destruct (trimEnd s) as [|y t] eqn:E.
  - cbn [tokensFrom]. rewrite <- IH. cbn [tokensFrom].
    destruct (isWhiteSpace c) eqn:Ec; cbn [tokensFrom]; rewrite ?Ec; reflexivity.
  - cbn [tokensFrom] in *. now rewrite IH.
Qed.

Lemma tokens_trim (s : string) : tokens (trim s) = tokens s.
Proof.
  unfold trim. rewrite <- (tokens_trimStart s).
  unfold tokens. now rewrite tokensFrom_trimEnd.
Qed.

Lemma consToken_app (w : string) (ws more : list string) :
  consToken w (ws ++ more) = consToken w ws ++ more.
Proof. now destruct w. Qed.

Lemma tokensFrom_app_space (a b : string) (sp : ascii) :
  isWhiteSpace sp = true ->
  tokensFrom (a +++ String sp b) =
  (fst (tokensFrom a), snd (tokensFrom a) ++ tokens b).
Proof.
  intros Hsp. induction a as [|c a IH].
  - cbn [String.append tokensFrom fst snd app]. rewrite Hsp.
    unfold tokens. now destruct (tokensFrom b).
  - cbn [String.append tokensFrom]. rewrite IH.
    destruct (tokensFrom a) as [w ws]. cbn [fst snd].
    destruct (isWhiteSpace c); cbn [fst snd]; [|reflexivity].
    now rewrite consToken_app.
Qed.

Lemma tokens_app_space (a b : string) (sp : ascii) :
  isWhiteSpace sp = true ->
  tokens (a +++ String sp b) = tokens a ++ tokens b.
Proof.
  intros Hsp. unfold tokens at 1 2. rewrite (tokensFrom_app_space a b sp Hsp).
  destruct (tokensFrom a) as [w ws]. cbn [fst snd]. apply consToken_app.
Qed.

Lemma tokens_join_space (l : list string) :
  tokens (join " " l) = flat_map tokens l.
Proof.
  induction l as [|x l IH]; [reflexivity|].
  destruct l as [|y l].
  - cbn [join flat_map]. now rewrite app_nil_r.
  - change (join " " (x :: y :: l)) with (x +++ String " " (join " " (y :: l))).
    rewrite tokens_app_space by reflexivity. now rewrite IH.
Qed.

Lemma toLowerCase_join_space (l : list string) :
  toLowerCase (join " " l) = join " " (map toLowerCase l).
Proof.
  induction l as [|x l IH]; [reflexivity|].
  destruct l as [|y l]; [reflexivity|].
  change (join " " (x :: y :: l)) with (x +++ " " +++ join " " (y :: l)).
  rewrite !toLowerCase_app, IH. reflexivity.
Qed.

Lemma filter_flat_map {A B : Type} (p : B -> bool) (f : A -> list B)
  (l : list A) :
  filter p (flat_map f l) = flat_map (fun x => filter p (f x)) l.
Proof.
  induction l as [|x l IH]; simpl; [reflexivity|].
  now rewrite filter_app, IH.
Qed.

Lemma questionWords_join_space (l : list string) :
  questionWords (join " " l) = flat_map questionWords l.
Proof.
  rewrite questionWords_tokens, toLowerCase_join_space, tokens_join_space.
  rewrite flat_map_concat_map, map_map, <- flat_map_concat_map.
  rewrite !filter_flat_map. apply flat_map_ext.
  intros x. now rewrite questionWords_tokens.
Qed.

Lemma join_space_empty_iff (l : list string) :
  join " " l = "" <-> l = [] \/ l = [""].
Proof.
  split.
  - destruct l as [|x [|y l]]; simpl; auto.
    + intros ->. auto.
    + intros H. apply append_eq_empty in H as [_ H]. discriminate.
  - intros [->| ->]; reflexivity.
Qed.

End TokensCompose.

(** The server trims the question before it calls the agent, and the
    agent does not see the difference: the trimmed question has the
    words of the question as sent, so the same documents are selected
    and the same context is built. *)
Theorem trim_keeps_retrieval :
  forall (data : FaqData) (documents : list Document) (question : string),
    questionWords (trim question) = questionWords question /\
    findRelevantDocuments (trim question) documents =
      findRelevantDocuments question documents /\
    buildContext data (trim question) = buildContext data question.
Proof.
  intros data documents question.
  assert (H : questionWords (trim question) = questionWords question).
  { rewrite !questionWords_tokens. unfold trim.
    rewrite toLowerCase_trimEnd, toLowerCase_trimStart.
    fold (trim (toLowerCase question)). now rewrite tokens_trim. }
  unfold buildContext, findRelevantDocuments. now rewrite H.
Qed.

(** Command line: the usage message and exit code 1 are the outcome
    exactly when the file is run directly and the arguments after the
    script are none or a single empty one; several empty arguments make
    a question of spaces, which is asked. *)
Theorem cli_usage_iff :
  forall argv : list string,
    (cli argv = UsageExit1 <->
     (exists script, nth_error argv 1 = Some script /\
        endsWith script "agent-simple-rag.js" = true) /\
     (skipn 2 argv = [] \/ skipn 2 argv = [""])) /\
    (forall script n,
       nth_error argv 1 = Some script ->
       endsWith script "agent-simple-rag.js" = true ->
       skipn 2 argv = repeat "" (S (S n)) ->
       cli argv = Ask (join " " (repeat "" (S (S n)))) /\
       join " " (repeat "" (S (S n))) <> "").
Proof.
  intros argv. unfold cli. split.
  - destruct (nth_error argv 1) as [script|] eqn:Hs.
    + assert (Hguard : nonEmpty script && endsWith script "agent-simple-rag.js"
                       = endsWith script "agent-simple-rag.js").
      { destruct script; reflexivity. }
      rewrite Hguard.
      destruct (endsWith script "agent-simple-rag.js") eqn:He.
      * destruct (join " " (skipn 2 argv)) eqn:Hj; cbn [nonEmpty].
        -- apply join_space_empty_iff in Hj.
           split; [intros _|reflexivity]. split; [now exists script | exact Hj].
        -- split; [discriminate|]. intros [_ H].
           apply join_space_empty_iff in H. congruence.
      * split; [discriminate|]. intros [[s [H1 H2]] _].
        inversion H1; subst. congruence.
    + split; [discriminate|]. intros [[s [H1 _]] _]. discriminate.
  - intros script n Hs He Hargs. rewrite Hs, He, Hargs.
    assert (Hguard : nonEmpty script = true).
    { destruct script; [discriminate | reflexivity]. }
    rewrite Hguard. cbn [andb].
    assert (Hne : join " " (repeat "" (S (S n))) <> "").
    { intros H. apply join_space_empty_iff in H as [H|H]; discriminate. }
    split; [|exact Hne].
    destruct (join " " (repeat "" (S (S n)))); [congruence | reflexivity].
Qed.

(** Command line: the words extracted from the question that is asked
    are the words of the arguments, one argument after the other, so
    quoting the question or leaving it to the shell to split makes no
    difference to the retrieval. *)
Theorem cli_words_of_arguments :
  forall (argv : list string) (question : string),
    cli argv = Ask question ->
    question = join " " (skipn 2 argv) /\
    questionWords question = flat_map questionWords (skipn 2 argv).
Proof.
  intros argv question. unfold cli.
  destruct (nth_error argv 1) as [script|]; [|discriminate].
  destruct (nonEmpty script && endsWith script "agent-simple-rag.js");
    [|discriminate].
  destruct (nonEmpty (join " " (skipn 2 argv))); [|discriminate].
  intros H. inversion H. split; [reflexivity|].
  apply questionWords_join_space.
Qed.

Lemma cli_words_of_arguments_witness :
  "Who leads backend" =
    join " " (skipn 2 ["node"; "agent-simple-rag.js"; "Who"; "leads backend"]) /\
  questionWords "Who leads backend" =
    flat_map questionWords
      (skipn 2 ["node"; "agent-simple-rag.js"; "Who"; "leads backend"]).
Proof.
  apply cli_words_of_arguments. reflexivity.
Defined.

(* ================================================================== *)
(** ** More on scoring and selection *)
(* ================================================================== *)

Section SelectionMore.

Lemma filter_length_perm {A : Type} (p : A -> bool) (l1 l2 : list A) :
  Permutation l1 l2 -> length (filter p l1) = length (filter p l2).
Proof.
  induction 1 as [|x l1 l2 _ IH|x y l|l1 l2 l3 _ IH1 _ IH2]; simpl.
  - reflexivity.
  - destruct (p x); simpl; now rewrite IH.
  - destruct (p x), (p y); reflexivity.
  - now rewrite IH1.
Qed.

Lemma scoreOf_perm (w1 w2 : list string) (doc : Document) :
  Permutation w1 w2 -> scoreOf w1 doc = scoreOf w2 doc.
Proof. intros H. rewrite !scoreOf_count. now apply filter_length_perm. Qed.

Lemma filter_map_length {A B : Type} (f : A -> B) (p : B -> bool)
  (l : list A) :
  length (filter p (map f l)) = length (filter (fun x => p (f x)) l).
Proof. now rewrite filter_map_comm, length_map. Qed.

Lemma ranking_length (terms : list string) (documents : list Document) :
  length (sort byScoreDesc
            (filter (fun s => 0 <? ScoredDoc.score s)
               (map (fun d => spreadWithScore d (scoreOf terms d)) documents)))
  = length (filter (fun d => 0 <? scoreOf terms d) documents).
Proof.
  rewrite (Permutation_length (sort_perm _ _)).
  now rewrite filter_map_length.
Qed.

End SelectionMore.

(** The order of the words of a question does not matter: two questions
    whose word lists are permutations of each other give every document
    the same score and select the same documents in the same order. *)
Theorem word_order_is_irrelevant :
  forall (q1 q2 : string) (documents : list Document),
    Permutation (questionWords q1) (questionWords q2) ->
    (forall doc, scoreOf (questionWords q1) doc =
                 scoreOf (questionWords q2) doc) /\
    findRelevantDocuments q1 documents = findRelevantDocuments q2 documents.
Proof.
  intros q1 q2 documents H.
  assert (Hs : forall doc, scoreOf (questionWords q1) doc =
                           scoreOf (questionWords q2) doc)
    by (intros doc; now apply scoreOf_perm).
  split; [exact Hs|].
  unfold findRelevantDocuments, selectWith. do 3 f_equal.
  apply map_ext. intros doc. now rewrite Hs.
Qed.

Lemma word_order_is_irrelevant_witness :
  (forall doc, scoreOf (questionWords "backend engineer") doc =
               scoreOf (questionWords "Engineer  BACKEND") doc) /\
  findRelevantDocuments "backend engineer" (createDocumentsFromData acme) =
  findRelevantDocuments "Engineer  BACKEND" (createDocumentsFromData acme).
Proof.
  apply word_order_is_irrelevant. vm_compute. apply perm_swap.
Defined.

(** The selection has at most 5 documents and at most as many as there
    are documents, and each selected document has a score of at least 1
    and at most the number of words of the question. *)
Theorem selection_is_bounded :
  forall (question : string) (documents : list Document),
    length (findRelevantDocuments question documents) <= 5 /\
    length (findRelevantDocuments question documents) <= length documents /\
    Forall (fun s => 1 <= ScoredDoc.score s <=
                     length (questionWords question))
      (findRelevantDocuments question documents).
Proof.
  intros question documents.
  unfold findRelevantDocuments, selectWith, slice0.
  set (words := questionWords question).
  split; [apply firstn_le_length|]. split.
  - rewrite length_firstn, ranking_length.
    etransitivity; [apply Nat.le_min_r | apply filter_length_le].
  - apply Forall_forall. intros s Hs. apply firstn_incl in Hs.
    apply ranking_In in Hs as [Hin Hpos].
    apply in_map_iff in Hin as [doc [<- _]]. cbn [ScoredDoc.score spreadWithScore] in *.
    split; [lia|]. rewrite scoreOf_count. apply filter_length_le.
Qed.

(** When at most 5 documents score above 0, none of them is left out:
    the selection is a rearrangement of exactly those documents, each
    with its score. *)
Theorem selection_keeps_all_when_few :
  forall (question : string) (documents : list Document),
    length (filter (fun d => 0 <? scoreOf (questionWords question) d)
              documents) <= 5 ->
    Permutation (findRelevantDocuments question documents)
      (map (fun d => spreadWithScore d (scoreOf (questionWords question) d))
         (filter (fun d => 0 <? scoreOf (questionWords question) d)
            documents)) /\
    (forall d, In d documents -> 0 < scoreOf (questionWords question) d ->
       In (spreadWithScore d (scoreOf (questionWords question) d))
          (findRelevantDocuments question documents)).
Proof.
  intros question documents Hfew.
  unfold findRelevantDocuments, selectWith, slice0.
  set (words := questionWords question) in *.
  rewrite firstn_all2 by (rewrite ranking_length; exact Hfew).
  split.
  - rewrite (sort_perm byScoreDesc _).
    rewrite (filter_map_comm (fun d => spreadWithScore d (scoreOf words d))
               (fun s => 0 <? ScoredDoc.score s)).
    reflexivity.
  - intros d Hd Hpos. apply ranking_In. split; [|exact Hpos].
    apply in_map_iff. now exists d.
Qed.

Lemma selection_keeps_all_when_few_witness :
  Permutation
    (findRelevantDocuments "backend engineer" (createDocumentsFromData acme))
    (map (fun d => spreadWithScore d
                     (scoreOf (questionWords "backend engineer") d))
       (filter (fun d => 0 <? scoreOf (questionWords "backend engineer") d)
          (createDocumentsFromData acme))) /\
  (forall d, In d (createDocumentsFromData acme) ->
     0 < scoreOf (questionWords "backend engineer") d ->
     In (spreadWithScore d (scoreOf (questionWords "backend engineer") d))
        (findRelevantDocuments "backend engineer"
           (createDocumentsFromData acme))).
Proof.
  apply selection_keeps_all_when_few. vm_compute. lia.
Defined.

(* ================================================================== *)
(** ** Failed loads *)
(* ================================================================== *)

Section FailedLoads.

Lemma runCalls_failing (questions : list string) :
  forall (rest : list (option FaqData * string)) (n : nat),
    runCalls (map (fun q => (None, q)) questions ++ rest)
      {| faqDataCache := None; loaderCalls := n |} =
    (fst (runCalls rest
            {| faqDataCache := None; loaderCalls := n + length questions |}),
     repeat Threw (length questions) ++
     snd (runCalls rest
            {| faqDataCache := None; loaderCalls := n + length questions |})).
Proof.
  induction questions as [|q questions IH]; intros rest n.
  - cbn [map app length repeat]. rewrite Nat.add_0_r.
    now destruct (runCalls rest _).
  - cbn [map app runCalls runFAQAgent faqDataCache loaderCalls length repeat].
    rewrite IH. replace (S n + length questions) with (n + S (length questions))
      by lia.
    reflexivity.
Qed.

End FailedLoads.

(** A load that throws is not remembered: each call whose load fails
    throws and leaves the cache empty, so the next call loads again.
    With the first successful load the retrying ends: the loader has
    then run once per failed call plus once, and that call and all
    later ones work on the data loaded then. *)
Theorem failed_loads_are_retried :
  forall (failing : list string) (data : FaqData) (question : string)
         (later : list (option FaqData * string)),
    runCalls (map (fun q => (None, q)) failing) initialProcess =
      ({| faqDataCache := None; loaderCalls := length failing |},
       repeat Threw (length failing)) /\
    runCalls (map (fun q => (None, q)) failing ++ (Some data, question) :: later)
      initialProcess =
      ({| faqDataCache := Some data; loaderCalls := length failing + 1 |},
       repeat Threw (length failing) ++
       built data question :: map (fun call => built data (snd call)) later).
Proof.
  intros failing data question later. unfold initialProcess. split.
  - rewrite <- (app_nil_r (map _ failing)), runCalls_failing.
    cbn [runCalls fst snd]. now rewrite app_nil_r.
  - rewrite runCalls_failing.
    cbn [runCalls runFAQAgent faqDataCache loaderCalls].
    rewrite (runCalls_cached data) by reflexivity.
    cbn [fst snd Nat.add]. now rewrite Nat.add_1_r.
Qed.

(* ================================================================== *)
(** ** The two retrieval agents side by side *)
(* ================================================================== *)

(** The vector-store agent derives the documents of the keyword agent:
    the same texts with the same type, name and category, in the same
    order, for every knowledge base. *)
Theorem vector_agent_same_documents :
  forall faqData : FaqData,
    map asDocument (VectorRag.documentsOf faqData) =
    createDocumentsFromData faqData.
Proof.
  intros faqData. rewrite createDocumentsFromData_eq.
  unfold VectorRag.documentsOf. rewrite !forEach_push. unfold push.
  rewrite !map_app, !map_map, <- !app_assoc. reflexivity.
Qed.

(** Selected documents are laid out alike by the two agents, but only
    the keyword agent has a fallback: with nothing selected the
    vector-store agent's context is the empty string, and that is the
    only case in which it is empty. *)
Theorem vector_agent_context :
  forall (data : FaqData) (relevantDocs : list VectorRag.LcDocument)
         (score : VectorRag.LcDocument -> nat),
    (relevantDocs <> [] ->
     context data
       (map (fun doc => spreadWithScore (asDocument doc) (score doc))
          relevantDocs) =
     VectorRag.context relevantDocs) /\
    (VectorRag.context relevantDocs = "" <-> relevantDocs = []) /\
    VectorRag.context [] <> context data [].
Proof.
  intros data relevantDocs score. split; [|split].
  - intros Hne. unfold context, VectorRag.context.
    destruct relevantDocs as [|d l]; [contradiction|].
    cbn [length map Nat.ltb Nat.leb]. rewrite map_map. reflexivity.
  - split; [|intros ->; reflexivity].
    destruct relevantDocs as [|d l]; [reflexivity|].
    unfold VectorRag.context. cbn [map]. intros H. exfalso. revert H.
    apply join_nonempty. apply append_nonempty_r. discriminate.
  - discriminate.
Qed.

(* ================================================================== *)
(** ** Initialisation of the vector store across calls *)
(* ================================================================== *)

Section VectorStoreInit.

Import VectorCache.

Lemma last_cons {A : Type} (l : list A) : forall x d : A,
  last (x :: l) d = last l x.
Proof.
  induction l as [|y l IH]; intros x d; [reflexivity|].
  change (last (x :: y :: l) d) with (last (y :: l) d).
  now rewrite !IH.
Qed.

Lemma last_map_default {A B : Type} (f : A -> B) (l : list A) (d : A) :
  last (map f l) (f d) = f (last l d).
Proof.
  revert d. induction l as [|x l IH]; intros d; [reflexivity|].
  cbn [map]. now rewrite !last_cons, IH.
Qed.

Lemma run_app (e1 e2 : list Event) (st : State) :
  run (e1 ++ e2) st = run e2 (run e1 st).
Proof. apply fold_left_app. Qed.

(** With the store cached nothing loads any more. *)
Lemma run_cached (events : list Event) : forall st : State,
  vectorStoreCache st <> None ->
  loaderCalls (run events st) = loaderCalls st /\
  vectorStoreCache (run events st) <> None.
Proof.
  induction events as [|e events IH]; intros st Hc; [now split|].
  cbn [run fold_left]. fold (run events (step st e)).
  assert (Hstep : loaderCalls (step st e) = loaderCalls st /\
                  vectorStoreCache (step st e) <> None).
  { destruct e as [file|i]; cbn [step].
    - destruct (vectorStoreCache st) eqn:E; [|contradiction].
      split; [reflexivity | congruence].
    - destruct (nth_error (pending st) i); [|now split].
      split; [reflexivity | discriminate]. }
  destruct Hstep as [Hl Hv]. destruct (IH _ Hv) as [Hl' Hv'].
  split; [congruence | assumption].
Qed.

(** Calls that begin while no store is cached all load. *)
Lemma run_early_calls (loads : list FaqData) : forall st : State,
  vectorStoreCache st = None ->
  run (map (fun d => Begin (Some d)) loads) st =
  {| vectorStoreCache := None;
     faqDataCache := last (map Some loads) (faqDataCache st);
     loaderCalls := loaderCalls st + length loads;
     pending := pending st ++ map VectorRag.documentsOf loads |}.
Proof.
  induction loads as [|d loads IH]; intros st Hc.
  - destruct st. cbn in *. subst. now rewrite Nat.add_0_r, app_nil_r.
  - cbn [map run fold_left]. fold (run (map (fun d => Begin (Some d)) loads)).
    cbn [step]. rewrite Hc. rewrite IH by reflexivity.
    cbn [loaderCalls pending faqDataCache length map].
    rewrite <- app_assoc, last_cons. cbn [app]. f_equal. lia.
Qed.

End VectorStoreInit.

(** The vector-store agent guards the load with [vectorStoreCache],
    which is assigned only after the awaited store has arrived: every
    call that begins before the first store arrives reads and parses the
    file again.  When the first of these calls then gets its store, the
    cached store is built from the first data loaded while
    [faqDataCache] holds the data loaded last; from then on no call
    loads. *)
Theorem vector_store_loads_per_early_call :
  forall (first : FaqData) (others : list FaqData)
         (rest : list VectorCache.Event),
    VectorCache.loaderCalls
      (VectorCache.run
         (map (fun d => VectorCache.Begin (Some d)) (first :: others) ++
          VectorCache.Complete 0 :: rest)
         VectorCache.initial) = 1 + length others /\
    VectorCache.vectorStoreCache
      (VectorCache.run
         (map (fun d => VectorCache.Begin (Some d)) (first :: others) ++
          [VectorCache.Complete 0])
         VectorCache.initial) = Some (VectorRag.documentsOf first) /\
    VectorCache.faqDataCache
      (VectorCache.run
         (map (fun d => VectorCache.Begin (Some d)) (first :: others) ++
          [VectorCache.Complete 0])
         VectorCache.initial) = Some (last others first).
Proof.
  intros first others rest.
  rewrite !run_app, (run_early_calls (first :: others)) by reflexivity.
  cbn [VectorCache.initial VectorCache.pending VectorCache.loaderCalls
       VectorCache.faqDataCache app map length Nat.add].
  split; [|split].
  - change (VectorCache.Complete 0 :: rest)
      with ([VectorCache.Complete 0] ++ rest).
    rewrite run_app.
    set (st := VectorCache.run [VectorCache.Complete 0] _).
    destruct (run_cached rest st) as [H _]; [discriminate|].
    rewrite H. reflexivity.
  - reflexivity.
  - cbn [VectorCache.run fold_left VectorCache.step VectorCache.pending
         nth_error VectorCache.faqDataCache].
    now rewrite last_cons, last_map_default.
Qed.

(* ================================================================== *)
(** ** A question found verbatim in a document *)
(* ================================================================== *)

Section Verbatim.

(** Tokens are pieces of the string. *)
Lemma tokensFrom_substrings (s : string) :
  (exists post, s = fst (tokensFrom s) +++ post) /\
  (forall t, In t (snd (tokensFrom s)) ->
     exists pre post, s = pre +++ t +++ post).
Proof.
  induction s as [|c s [[post Hw] Hws]].
  - split; [now exists "" | intros t []].
  - cbn [tokensFrom]. destruct (tokensFrom s) as [w ws]. cbn [fst snd] in *.
    assert (Hlift : forall t, In t (consToken w ws) ->
              exists pre post', String c s = pre +++ t +++ post').
    { intros t Ht. destruct w as [|x w].
      - destruct (Hws t Ht) as [pre [post' E]].
        exists (String c pre), post'. simpl. f_equal. exact E.
      - destruct Ht as [<-|Ht].
        + exists (String c ""), post. simpl. f_equal. exact Hw.
        + destruct (Hws t Ht) as [pre [post' E]].
          exists (String c pre), post'. simpl. f_equal. exact E. }
    destruct (isWhiteSpace c); cbn [fst snd].
    + split; [now exists (String c s) | exact Hlift].
    + split; [exists post; simpl; f_equal; exact Hw|].
      intros t Ht. apply Hlift. destruct w; [exact Ht | now right].
Qed.

Lemma tokens_substrings (s t : string) :
  In t (tokens s) -> exists pre post, s = pre +++ t +++ post.
Proof.
  unfold tokens. pose proof (tokensFrom_substrings s) as [[post Hw] Hws].
  destruct (tokensFrom s) as [w ws]. cbn [fst snd] in *.
  destruct w as [|x w]; [apply Hws|].
  intros [<-|Ht]; [now exists "", post | now apply Hws].
Qed.

Lemma questionWords_substrings (question t : string) :
  In t (questionWords question) ->
  exists pre post, toLowerCase question = pre +++ t +++ post.
Proof.
  rewrite questionWords_tokens. intros H.
  apply filter_In in H as [H _]. apply filter_In in H as [H _].
  now apply tokens_substrings.
Qed.

(** A document that contains the question scores the maximum. *)
Lemma verbatim_scores_all (question : string) (doc : Document) :
  CISubstring question (content doc) ->
  scoreOf (questionWords question) doc = length (questionWords question).
Proof.
  intros Hq. rewrite scoreOf_count.
  apply includes_lower_iff, includes_iff in Hq as [a [b Hc]].
  rewrite Hc. clear Hc.
  assert (H : forall t, In t (questionWords question) ->
            includes (a +++ toLowerCase question +++ b) t = true).
  { intros t Ht. apply questionWords_substrings in Ht as [pre [post E]].
    apply includes_iff. exists (a +++ pre), (post +++ b).
    now rewrite E, !append_assoc. }
  induction (questionWords question) as [|w l IH]; [reflexivity|].
  cbn [filter]. rewrite (H w (or_introl eq_refl)). cbn [length].
  f_equal. apply IH. intros t Ht. apply H. now right.
Qed.

End Verbatim.

(** When the text of a question with at least one significant word
    occurs, letter case ignored, in the content of some document, the
    selection is not empty and the document selected first contains
    every word of the question: its score is the number of words. *)
Theorem verbatim_question_is_answered :
  forall (question : string) (documents : list Document) (doc : Document),
    In doc documents ->
    CISubstring question (content doc) ->
    questionWords question <> [] ->
    exists top rest,
      findRelevantDocuments question documents = top :: rest /\
      ScoredDoc.score top = length (questionWords question).
Proof.
  intros question documents doc Hin Hsub Hwords.
  pose proof (verbatim_scores_all question doc Hsub) as Hmax.
  assert (Hpos : 0 < length (questionWords question)).
  { destruct (questionWords question); [contradiction | simpl; lia]. }
  unfold findRelevantDocuments, selectWith, slice0.
  set (words := questionWords question) in *.
  pose proof (ranking_In words documents) as HIn.
  pose proof (sort_sorted ScoredDoc.score byScoreDesc (fun a b => eq_refl)
                (filter (fun s => 0 <? ScoredDoc.score s)
                   (map (fun d => spreadWithScore d (scoreOf words d))
                      documents))) as Hsorted.
  set (ranked := sort byScoreDesc _) in *. clearbody ranked.
  assert (Hdoc : In (spreadWithScore doc (scoreOf words doc)) ranked).
  { apply HIn. split; [|simpl; lia]. apply in_map_iff. now exists doc. }
  destruct ranked as [|top rest]; [contradiction|].
  exists top, (firstn 4 rest). split; [reflexivity|].
  assert (Hle : ScoredDoc.score top <= length words).
  { destruct (HIn top) as [Htop _].
    destruct (Htop (or_introl eq_refl)) as [Hmap _].
    apply in_map_iff in Hmap as [d [<- _]]. simpl.
    rewrite scoreOf_count. apply filter_length_le. }
  assert (Hge : length words <= ScoredDoc.score top).
  { destruct Hdoc as [Heq|Hrest]; [rewrite Heq; simpl; lia|].
    inversion Hsorted as [|? ? _ Hall]; subst.
    rewrite Forall_forall in Hall. specialize (Hall _ Hrest).
    simpl in Hall. lia. }
  lia.
Qed.

Lemma verbatim_question_is_answered_witness :
  exists top rest,
    findRelevantDocuments "we BUILD apis" (createDocumentsFromData acme) =
      top :: rest /\
    ScoredDoc.score top = length (questionWords "we BUILD apis").
Proof.
  apply (verbatim_question_is_answered "we BUILD apis"
           (createDocumentsFromData acme) (companyDocument acme)).
  - left. reflexivity.
  - apply includes_lower_iff. vm_compute. reflexivity.
  - vm_compute. discriminate.
Defined.
